(** * mabiki: the debounce invocation scheduler

    A shallow embedding of [src/debounce.ts] (and of [isObject]) together
    with the properties of its specification.

    Modelling conventions.
    - [Date.now()] yields an integral number of milliseconds, so time stamps
      are [Z]; every operation that reads the clock takes the reading as an
      argument.
    - The numbers a caller supplies ([wait], [options.maxWait]) are JS
      numbers: [num] adds NaN and the two infinities to the integers.
      Fractions and rounding beyond 2^53 are outside the model.
    - The closure variables of [debounce] are the fields of [State]; the
      constants fixed at construction are the fields of [Config].
    - The host ([setTimeout], [clearTimeout], [requestAnimationFrame],
      [cancelAnimationFrame]) is a pair of queues with fresh-identifier
      counters, carried in the state.
    - The wrapped callable is a total function of its receiver and arguments
      that neither throws nor re-enters the wrapper; every [func.apply] is
      recorded in the history [calls]. *)

From Stdlib Require Import ZArith Bool List String Lia.
Import ListNotations.
Open Scope Z_scope.

(* ------------------------------------------------------------------ *)
(** ** JS numbers *)

Inductive num : Type :=
| NaN
| NegInf
| Fin (z : Z)
| PosInf.

Module Num.

(** [a - b] *)
Definition sub (a b : num) : num :=
  match a, b with
  | NaN, _ | _, NaN => NaN
  | Fin x, Fin y => Fin (x - y)
  | PosInf, PosInf | NegInf, NegInf => NaN
  | PosInf, _ => PosInf
  | NegInf, _ => NegInf
  | Fin _, PosInf => NegInf
  | Fin _, NegInf => PosInf
  end.

(** [a < b]: false as soon as one side is NaN *)
Definition ltb (a b : num) : bool :=
  match a, b with
  | NaN, _ | _, NaN => false
  | Fin x, Fin y => x <? y
  | NegInf, NegInf => false
  | NegInf, _ => true
  | _, NegInf => false
  | PosInf, _ => false
  | Fin _, PosInf => true
  end.

(** [a >= b]: false as soon as one side is NaN *)
Definition geb (a b : num) : bool :=
  match a, b with
  | NaN, _ | _, NaN => false
  | Fin x, Fin y => y <=? x
  | PosInf, _ => true
  | _, NegInf => true
  | NegInf, _ => false
  | Fin _, PosInf => false
  end.

(** [Math.min(a, b)] *)
Definition min (a b : num) : num :=
  match a, b with
  | NaN, _ | _, NaN => NaN
  | _, _ => if ltb b a then b else a
  end.

(** [Math.max(a, b)] *)
Definition max (a b : num) : num :=
  match a, b with
  | NaN, _ | _, NaN => NaN
  | _, _ => if ltb a b then b else a
  end.

(** truthiness of a number: NaN and zero are falsy *)
Definition truthy (a : num) : bool :=
  match a with
  | NaN => false
  | Fin 0 => false
  | _ => true
  end.

(** [a || 0] *)
Definition or0 (a : num) : num := if truthy a then a else Fin 0.

(** The order as propositions, stated apart from the boolean tests. *)
Definition lt (a b : num) : Prop :=
  match a, b with
  | Fin x, Fin y => x < y
  | NegInf, Fin _ | NegInf, PosInf | Fin _, PosInf => True
  | _, _ => False
  end.

Definition ge (a b : num) : Prop :=
  match a, b with
  | Fin x, Fin y => y <= x
  | PosInf, Fin _ | PosInf, NegInf | PosInf, PosInf
  | Fin _, NegInf | NegInf, NegInf => True
  | _, _ => False
  end.

Definition is_nan (a : num) : bool :=
  match a with NaN => true | _ => false end.

End Num.

(* ------------------------------------------------------------------ *)
(** ** JS values *)

(** A property of an object: not there, there and [undefined], or there
    with a value of its declared type. *)
Inductive slot (A : Type) : Type :=
| Missing
| Undef
| Has (a : A).
Arguments Missing {A}.
Arguments Undef {A}.
Arguments Has {A} a.

(** [interface DebounceOptions]: an object seen through the three
    properties the constructor reads. *)
Record DebounceOptions : Type := mkOptions {
  o_maxWait : slot num;
  o_leading : slot bool;
  o_trailing : slot bool
}.

Inductive value : Type :=
| VUndefined
| VNull
| VBool (b : bool)
| VNum (n : num)
| VStr (s : string)
| VFun (f : nat)
| VObj (o : DebounceOptions).

Definition typeof (v : value) : string :=
  match v with
  | VUndefined => "undefined"
  | VNull => "object"
  | VBool _ => "boolean"
  | VNum _ => "number"
  | VStr _ => "string"
  | VFun _ => "function"
  | VObj _ => "object"
  end.

(** [value != null] (loose): false exactly for [null] and [undefined] *)
Definition neq_null (v : value) : bool :=
  match v with
  | VUndefined | VNull => false
  | _ => true
  end.

Definition isObject (v : value) : bool :=
  let type := typeof v in
  neq_null v && (type =? "object")%string.

(** [key in options] *)
Definition has_prop {A} (p : slot A) : bool :=
  match p with Missing => false | _ => true end.

(** [!!options.key] for a boolean property *)
Definition truthy_prop (p : slot bool) : bool :=
  match p with Has b => b | _ => false end.

(** [Number(options.key)] for a numeric property *)
Definition Number_prop (p : slot num) : num :=
  match p with Has n => n | _ => NaN end.

(** [Number(wait)] for [wait?: number] *)
Definition Number_opt (w : option num) : num :=
  match w with Some n => n | None => NaN end.

(* ------------------------------------------------------------------ *)
(** ** The host: timers, frame callbacks, callables *)

(** What [setTimeout] returns: a number in browsers, an object elsewhere. *)
Inductive TimeoutId : Type :=
| IdNum (n : nat)
| IdObj (n : nat).

Definition id_of (h : TimeoutId) : nat :=
  match h with IdNum n | IdObj n => n end.

(** [typeof id === "number"] *)
Definition is_number (h : TimeoutId) : bool :=
  match h with IdNum _ => true | IdObj _ => false end.

Record Host : Type := mkHost {
  timeouts : list (nat * num);   (* outstanding setTimeout callbacks, with their delay *)
  frames : list nat;             (* outstanding requestAnimationFrame callbacks *)
  nextTimeout : nat;
  nextFrame : nat
}.

Record Env : Type := mkEnv {
  hasRAF : bool;       (* window.requestAnimationFrame is a function *)
  numericIds : bool;   (* setTimeout returns a number *)
  apply : nat -> value -> list value -> value   (* behaviour of each callable *)
}.

(** [f.apply(thisArg, args)]; only functions reach it. *)
Definition call (env : Env) (f : value) (thisArg : value) (args : option (list value)) : value :=
  match f with
  | VFun n => apply env n thisArg (match args with Some l => l | None => [] end)
  | _ => VUndefined
  end.

(* ------------------------------------------------------------------ *)
(** ** Scheduler instance *)

Record Config : Type := mkConfig {
  func : value;
  waitValue : num;
  leading : bool;
  trailing : bool;
  maxWait : option num;
  useRAF : bool
}.

(** One recorded [func.apply]: when, on which receiver, with which arguments. *)
Record Invocation : Type := mkInvocation {
  inv_time : Z;
  inv_this : value;
  inv_args : option (list value)
}.

Record State : Type := mkState {
  lastArgs : option (list value);
  lastThis : value;
  result : value;
  lastCallTime : option Z;
  timerId : option TimeoutId;
  lastInvokeTime : Z;
  host : Host;
  calls : list Invocation
}.

Definition init (h : Host) : State :=
  mkState None VUndefined VUndefined None None 0 h [].

Inductive Error : Type :=
| TypeError (msg : string).

Inductive outcome (A : Type) : Type :=
| Throw (e : Error)
| Return (a : A).
Arguments Throw {A} e.
Arguments Return {A} a.

(** The properties of [options] the constructor reads; a value that is not
    an object has none of them. *)
Definition props_of (v : value) : DebounceOptions :=
  match v with
  | VObj o => o
  | _ => mkOptions Missing Missing Missing
  end.

Definition debounce (env : Env) (func : value) (wait : option num) (options : value)
  : outcome Config :=
  let useRAF := match wait with None => hasRAF env | Some _ => false end in
  if negb (typeof func =? "function")%string then Throw (TypeError "Expected a function")
  else
    let waitValue := Num.or0 (Number_opt wait) in
    let leading := false in
    let trailing := true in
    let maxWait : option num := None in
    let o := props_of options in
    let '(leading, maxWait, trailing) :=
      if isObject options then
        (truthy_prop (o_leading o),
         if has_prop (o_maxWait o)
         then Some (Num.max (Num.or0 (Number_prop (o_maxWait o))) waitValue)
         else maxWait,
         if has_prop (o_trailing o) then truthy_prop (o_trailing o) else trailing)
      else (leading, maxWait, trailing) in
    Return (mkConfig func waitValue leading trailing maxWait useRAF).

(* ------------------------------------------------------------------ *)
(** ** State monad of the closure *)

Definition M (A : Type) : Type := State -> A * State.

Definition ret {A} (a : A) : M A := fun st => (a, st).
Definition bind {A B} (m : M A) (k : A -> M B) : M B :=
  fun st => let (a, st') := m st in k a st'.
Definition gets {A} (f : State -> A) : M A := fun st => (f st, st).
Definition modify (f : State -> State) : M unit := fun st => (tt, f st).

Declare Scope sched_scope.
Delimit Scope sched_scope with sched.
Notation "x <- m ;; k" := (bind m (fun x => k))
  (at level 61, m at next level, right associativity) : sched_scope.
Notation "m ;; k" := (bind m (fun _ => k))
  (at level 61, right associativity) : sched_scope.

(** Assignments to the closure variables. *)
Definition set_lastArgs (v : option (list value)) (st : State) : State :=
  mkState v (lastThis st) (result st) (lastCallTime st) (timerId st)
    (lastInvokeTime st) (host st) (calls st).
Definition set_lastThis (v : value) (st : State) : State :=
  mkState (lastArgs st) v (result st) (lastCallTime st) (timerId st)
    (lastInvokeTime st) (host st) (calls st).
Definition set_result (v : value) (st : State) : State :=
  mkState (lastArgs st) (lastThis st) v (lastCallTime st) (timerId st)
    (lastInvokeTime st) (host st) (calls st).
Definition set_lastCallTime (v : option Z) (st : State) : State :=
  mkState (lastArgs st) (lastThis st) (result st) v (timerId st)
    (lastInvokeTime st) (host st) (calls st).
Definition set_timerId (v : option TimeoutId) (st : State) : State :=
  mkState (lastArgs st) (lastThis st) (result st) (lastCallTime st) v
    (lastInvokeTime st) (host st) (calls st).
Definition set_lastInvokeTime (v : Z) (st : State) : State :=
  mkState (lastArgs st) (lastThis st) (result st) (lastCallTime st) (timerId st)
    v (host st) (calls st).
Definition set_host (v : Host) (st : State) : State :=
  mkState (lastArgs st) (lastThis st) (result st) (lastCallTime st) (timerId st)
    (lastInvokeTime st) v (calls st).
Definition record_call (i : Invocation) (st : State) : State :=
  mkState (lastArgs st) (lastThis st) (result st) (lastCallTime st) (timerId st)
    (lastInvokeTime st) (host st) (calls st ++ [i]).

(** Host primitives. *)
Definition host_setTimeout (delay : num) (h : Host) : Host :=
  mkHost (timeouts h ++ [(nextTimeout h, delay)]) (frames h)
    (S (nextTimeout h)) (nextFrame h).
Definition host_requestFrame (h : Host) : Host :=
  mkHost (timeouts h) (frames h ++ [nextFrame h]) (nextTimeout h) (S (nextFrame h)).
Definition host_clearTimeout (n : nat) (h : Host) : Host :=
  mkHost (filter (fun e => negb (Nat.eqb (fst e) n)) (timeouts h)) (frames h)
    (nextTimeout h) (nextFrame h).
Definition host_cancelFrame (n : nat) (h : Host) : Host :=
  mkHost (timeouts h) (filter (fun m => negb (Nat.eqb m n)) (frames h))
    (nextTimeout h) (nextFrame h).

Section Scheduler.

Variable env : Env.
Variable cfg : Config.

Local Open Scope sched_scope.

Definition setTimeout (delay : num) : M TimeoutId :=
  n <- gets (fun st => nextTimeout (host st)) ;;
  modify (fun st => set_host (host_setTimeout delay (host st)) st) ;;
  ret (if numericIds env then IdNum n else IdObj n).

Definition clearTimeout (id : TimeoutId) : M unit :=
  modify (fun st => set_host (host_clearTimeout (id_of id) (host st)) st).

Definition requestAnimationFrame : M TimeoutId :=
  n <- gets (fun st => nextFrame (host st)) ;;
  modify (fun st => set_host (host_requestFrame (host st)) st) ;;
  ret (IdNum n).

Definition cancelAnimationFrame (id : TimeoutId) : M unit :=
  modify (fun st => set_host (host_cancelFrame (id_of id) (host st)) st).

Definition invokeFunc (time : Z) : M value :=
  args <- gets lastArgs ;;
  thisArg <- gets lastThis ;;
  modify (set_lastThis VUndefined) ;;
  modify (set_lastArgs None) ;;
  modify (set_lastInvokeTime time) ;;
  modify (record_call (mkInvocation time thisArg args)) ;;
  modify (set_result (call env (func cfg) thisArg args)) ;;
  gets result.

(** The callback is always [timerExpired]; only the delay is a parameter. *)
Definition startTimer (wait : num) : M TimeoutId :=
  tid <- gets timerId ;;
  match tid with
  | Some id =>
      if useRAF cfg && is_number id then
        cancelAnimationFrame id ;;
        requestAnimationFrame
      else setTimeout wait
  | None => setTimeout wait
  end.

Definition cancelTimer (id : TimeoutId) : M unit :=
  (if useRAF cfg && is_number id then cancelAnimationFrame id else ret tt) ;;
  clearTimeout id.

Definition leadingEdge (time : Z) : M value :=
  modify (set_lastInvokeTime time) ;;
  id <- startTimer (waitValue cfg) ;;
  modify (set_timerId (Some id)) ;;
  if leading cfg then invokeFunc time else gets result.

Definition remainingWait (time : Z) (st : State) : num :=
  match lastCallTime st with
  | None => Fin 0
  | Some lct =>
      let timeSinceLastCall := time - lct in
      let timeSinceLastInvoke := time - lastInvokeTime st in
      let timeWaiting := Num.sub (waitValue cfg) (Fin timeSinceLastCall) in
      match maxWait cfg with
      | Some mw => Num.min timeWaiting (Num.sub mw (Fin timeSinceLastInvoke))
      | None => timeWaiting
      end
  end.

Definition shouldInvoke (time : Z) (st : State) : bool :=
  match lastCallTime st with
  | None => true
  | Some lct =>
      let timeSinceLastCall := time - lct in
      let timeSinceLastInvoke := time - lastInvokeTime st in
      Num.geb (Fin timeSinceLastCall) (waitValue cfg)
      || (timeSinceLastCall <? 0)
      || match maxWait cfg with
         | Some mw => Num.geb (Fin timeSinceLastInvoke) mw
         | None => false
         end
  end.

Definition trailingEdge (time : Z) : M value :=
  modify (set_timerId None) ;;
  args <- gets lastArgs ;;
  if trailing cfg && (match args with Some _ => true | None => false end) then
    invokeFunc time
  else
    modify (set_lastThis VUndefined) ;;
    modify (set_lastArgs None) ;;
    gets result.

Definition timerExpired (time : Z) : M value :=
  isInvoking <- gets (shouldInvoke time) ;;
  if isInvoking then trailingEdge time
  else
    d <- gets (remainingWait time) ;;
    id <- startTimer d ;;
    modify (set_timerId (Some id)) ;;
    ret VUndefined.

Definition cancel : M unit :=
  tid <- gets timerId ;;
  match tid with
  | Some id => cancelTimer id
  | None => ret tt
  end ;;
  modify (set_lastInvokeTime 0) ;;
  modify (set_timerId None) ;;
  modify (set_lastThis VUndefined) ;;
  modify (set_lastCallTime None) ;;
  modify (set_lastArgs None).

Definition flush (now : Z) : M value :=
  tid <- gets timerId ;;
  match tid with
  | None => gets result
  | Some _ => trailingEdge now
  end.

Definition pending (st : State) : bool :=
  match timerId st with Some _ => true | None => false end.

Definition debounced (this : value) (args : list value) (now : Z) : M value :=
  let time := now in
  isInvoking <- gets (shouldInvoke time) ;;
  modify (set_lastArgs (Some args)) ;;
  modify (set_lastThis this) ;;
  modify (set_lastCallTime (Some time)) ;;
  (* the statements after the [if (isInvoking)] block *)
  let otherwise : M value :=
    tid <- gets timerId ;;
    match tid with
    | None =>
        id <- startTimer (waitValue cfg) ;;
        modify (set_timerId (Some id))
    | Some _ => ret tt
    end ;;
    gets result in
  if isInvoking then
    tid <- gets timerId ;;
    match tid with
    | None => leadingEdge time
    | Some _ =>
        match maxWait cfg with
        | Some _ =>
            id <- startTimer (waitValue cfg) ;;
            modify (set_timerId (Some id)) ;;
            invokeFunc time
        | None => otherwise
        end
    end
  else otherwise.

End Scheduler.

(* ------------------------------------------------------------------ *)
(** ** The instance in its host: events and runs *)

Definition has_timeout (n : nat) (h : Host) : bool :=
  existsb (fun e => Nat.eqb (fst e) n) (timeouts h).
Definition has_frame (n : nat) (h : Host) : bool :=
  existsb (fun m => Nat.eqb m n) (frames h).

(** What can happen to an instance: the caller uses its public surface, or
    the host runs a callback that is outstanding (and forgets it). *)
Inductive event : Type :=
| Call (this : value) (args : list value) (now : Z)
| Cancel
| Flush (now : Z)
| TimeoutFires (n : nat) (now : Z)
| FrameFires (n : nat) (now : Z).

Definition step (env : Env) (cfg : Config) (ev : event) (st : State) : State :=
  match ev with
  | Call this args now => snd (debounced env cfg this args now st)
  | Cancel => snd (cancel cfg st)
  | Flush now => snd (flush env cfg now st)
  | TimeoutFires n now =>
      if has_timeout n (host st)
      then snd (timerExpired env cfg now (set_host (host_clearTimeout n (host st)) st))
      else st
  | FrameFires n now =>
      if has_frame n (host st)
      then snd (timerExpired env cfg now (set_host (host_cancelFrame n (host st)) st))
      else st
  end.

Definition run (env : Env) (cfg : Config) (evs : list event) (st : State) : State :=
  fold_left (fun s ev => step env cfg ev s) evs st.

(** The states an instance can be in: those a run from a fresh instance reaches. *)
Inductive reachable (env : Env) (cfg : Config) (h0 : Host) : State -> Prop :=
| reach_init : reachable env cfg h0 (init h0)
| reach_step st ev :
    reachable env cfg h0 st -> reachable env cfg h0 (step env cfg ev st).

(** The value the wrapper hands back when it does not invoke: what the
    latest invocation returned. *)
Definition last_return (env : Env) (cfg : Config) (l : list Invocation) : value :=
  match rev l with
  | [] => VUndefined
  | i :: _ => call env (func cfg) (inv_this i) (inv_args i)
  end.

(* ------------------------------------------------------------------ *)
(** ** Vocabulary of the statements *)

(** The handle [setTimeout] returns for the next timer of host [h]. *)
Definition fresh_timeout (env : Env) (h : Host) : TimeoutId :=
  if numericIds env then IdNum (nextTimeout h) else IdObj (nextTimeout h).

(** Whether [startTimer] takes the frame-callback path when handle [id] is
    in the timer slot. *)
Definition frame_path (cfg : Config) (id : TimeoutId) : bool :=
  useRAF cfg && is_number id.

Definition outstanding (st : State) : bool :=
  match timerId st with
  | Some id => has_timeout (id_of id) (host st) || has_frame (id_of id) (host st)
  | None => false
  end.

Definition slot_live (st : State) : Prop :=
  timerId st = None \/ outstanding st = true.

(** What running the trailing edge at [now] from [st] amounts to: the slot
    and the pending payload are cleared, the host is left alone, and the
    callable is invoked on the pending payload exactly when [trailing] is on
    and arguments are pending. *)
Definition trailing_edge_post
    (env : Env) (cfg : Config) (now : Z) (st : State) (r : value) (st' : State) : Prop :=
  timerId st' = None
  /\ lastArgs st' = None
  /\ lastThis st' = VUndefined
  /\ lastCallTime st' = lastCallTime st
  /\ host st' = host st
  /\ (trailing cfg = true -> forall a, lastArgs st = Some a ->
        calls st' = calls st ++ [mkInvocation now (lastThis st) (Some a)]
        /\ r = call env (func cfg) (lastThis st) (Some a)
        /\ result st' = r
        /\ lastInvokeTime st' = now)
  /\ (trailing cfg = false \/ lastArgs st = None ->
        calls st' = calls st
        /\ r = result st
        /\ result st' = result st
        /\ lastInvokeTime st' = lastInvokeTime st).

(** The delay the expiry handler asks for when it re-arms the timer. *)
Definition remaining (cfg : Config) (now lct : Z) (st : State) : num :=
  match maxWait cfg with
  | Some mw =>
      Num.min (Num.sub (waitValue cfg) (Fin (now - lct)))
              (Num.sub mw (Fin (now - lastInvokeTime st)))
  | None => Num.sub (waitValue cfg) (Fin (now - lct))
  end.

Definition result_inv (env : Env) (cfg : Config) (st : State) : Prop :=
  result st = last_return env cfg (calls st).

(** With no timer in the slot nothing is pending: no payload is kept. *)
Definition idle_inv (st : State) : Prop :=
  timerId st = None -> lastArgs st = None /\ lastThis st = VUndefined.

Definition is_call (ev : event) : bool :=
  match ev with Call _ _ _ => true | _ => false end.

(** A call, as the event it is. *)
Definition call_event (c : value * list value * Z) : event :=
  match c with (this, args, now) => Call this args now end.

Definition is_frame_fire (ev : event) : bool :=
  match ev with FrameFires _ _ => true | _ => false end.

(** [debounce(f, 32, { leading: true, trailing: false })] *)
Definition cfg_lead_only : Config :=
  mkConfig (VFun 0) (Fin 32) true false None false.

(* ------------------------------------------------------------------ *)
(** ** Scenarios *)

(** The callable of the test suite: it returns its first argument. *)
Definition first_arg (_ : nat) (_ : value) (args : list value) : value :=
  hd VUndefined args.

(** A browser: frame callbacks exist and timer handles are numbers. *)
Definition browser : Env := mkEnv true true first_arg.
(** A host without [window]: timer handles are objects. *)
Definition node : Env := mkEnv false false first_arg.

Definition host0 : Host := mkHost [] [] 1 1.

(** [debounce(f, 32)] *)
Definition cfg_32 : Config := mkConfig (VFun 0) (Fin 32) false true None false.
(** [debounce(f, 32, { maxWait: 64 })] *)
Definition cfg_32_64 : Config := mkConfig (VFun 0) (Fin 32) false true (Some (Fin 64)) false.
(** [debounce(f, undefined, { maxWait: 5 })] in a browser *)
Definition cfg_raf : Config := mkConfig (VFun 0) (Fin 0) false true (Some (Fin 5)) true.
(** [debounce(f, 100, { leading: true })] *)
Definition cfg_lead : Config := mkConfig (VFun 0) (Fin 100) true true None false.

(** One call at time 0 on a fresh instance. *)
Definition after_call (env : Env) (cfg : Config) : State :=
  step env cfg (Call VUndefined [VStr "a"] 0) (init host0).

(** A leading call at 0, then [flush()] at 10. *)
Definition flushed : State :=
  run node cfg_lead [Call VUndefined [VStr "a"] 0; Flush 10] (init host0).

(** Results handed back by a sequence of calls, oldest first. *)
Fixpoint call_results (env : Env) (cfg : Config) (l : list (list value * Z)) (st : State)
  : list value * State :=
  match l with
  | [] => ([], st)
  | (args, now) :: l' =>
      let (r, st1) := debounced env cfg VUndefined args now st in
      let (rs, st2) := call_results env cfg l' st1 in
      (r :: rs, st2)
  end.

(* ------------------------------------------------------------------ *)
(** ** Proof support *)

Ltac unfold_sched :=
  unfold debounced, timerExpired, flush, cancel, leadingEdge, trailingEdge,
    cancelTimer, startTimer, invokeFunc, setTimeout, clearTimeout,
    requestAnimationFrame, cancelAnimationFrame, bind, gets, modify, ret.

Ltac case_sched :=
  repeat match goal with
         | |- context [shouldInvoke ?c ?t ?s] => destruct (shouldInvoke c t s); simpl
         | |- context [if ?b then _ else _] =>
             match type of b with bool => destruct b; simpl end
         | |- context [match maxWait ?c with Some _ => _ | None => _ end] =>
             destruct (maxWait c); simpl
         | |- context [match ?x with Some _ => _ | None => _ end] =>
             is_var x; destruct x; simpl
         end.

(* ------------------------------------------------------------------ *)
(** ** Numbers: the boolean tests decide the order *)

Lemma geb_ge a b : Num.geb a b = true <-> Num.ge a b.
Proof.
  destruct a, b; simpl; try tauto; try (split; [discriminate | tauto]).
  apply Z.leb_le.
Qed.

Lemma ltb_lt a b : Num.ltb a b = true <-> Num.lt a b.
Proof.
  destruct a, b; simpl; try tauto; try (split; [discriminate | tauto]).
  apply Z.ltb_lt.
Qed.

Lemma or0_not_nan a : Num.is_nan (Num.or0 a) = false.
Proof. destruct a as [| |z|]; try reflexivity. destruct z; reflexivity. Qed.

(* ------------------------------------------------------------------ *)
(** ** The decision: [shouldInvoke] *)

(** C1. [shouldInvoke(t)] is true exactly when there was no call yet, or the
    time since the last call is at least [wait], or that time is negative,
    or [maxWait] is set and the time since the last invocation is at least
    [maxWait]; otherwise it is false. *)
Theorem shouldInvoke_iff (cfg : Config) (st : State) (t : Z) :
  shouldInvoke cfg t st = true <->
  lastCallTime st = None
  \/ (exists lct, lastCallTime st = Some lct /\ Num.ge (Fin (t - lct)) (waitValue cfg))
  \/ (exists lct, lastCallTime st = Some lct /\ t - lct < 0)
  \/ (exists mw, maxWait cfg = Some mw /\ Num.ge (Fin (t - lastInvokeTime st)) mw).
Proof.
  unfold shouldInvoke.
  destruct (lastCallTime st) as [lct|] eqn:Hl; [| intuition].
  rewrite !orb_true_iff, geb_ge, Z.ltb_lt.
  split.
  - intros [[H | H] | H].
    + right; left; eauto.
    + right; right; left; eauto.
    + destruct (maxWait cfg) as [mw|]; [| discriminate].
      apply geb_ge in H. right; right; right; eauto.
  - intros [H | [(l & E & H) | [(l & E & H) | (mw & E & H)]]].
    + discriminate.
    + inversion E; subst; auto.
    + inversion E; subst; auto.
    + rewrite E. right. now apply geb_ge.
Qed.

(* ------------------------------------------------------------------ *)
(** ** Calls to the wrapper *)

(** C2. A call at [t] for which [shouldInvoke(t)] holds while no timer is
    outstanding sets [lastInvokeTime] to [t] and starts a timer for [wait];
    with [leading] it invokes the callable at once on the call's receiver
    and arguments and returns the fresh result, without [leading] it invokes
    nothing and returns the previous result, which stays. *)
Theorem debounced_leading_edge
    (env : Env) (cfg : Config) (st : State) (this : value) (args : list value) (t : Z) :
  shouldInvoke cfg t st = true ->
  timerId st = None ->
  let r := fst (debounced env cfg this args t st) in
  let st' := snd (debounced env cfg this args t st) in
  lastInvokeTime st' = t
  /\ host st' = host_setTimeout (waitValue cfg) (host st)
  /\ timerId st' = Some (fresh_timeout env (host st))
  /\ (leading cfg = true ->
        calls st' = calls st ++ [mkInvocation t this (Some args)]
        /\ r = call env (func cfg) this (Some args)
        /\ result st' = r)
  /\ (leading cfg = false ->
        calls st' = calls st /\ r = result st /\ result st' = result st).
Proof.
  intros Hinv Hid. unfold_sched. rewrite Hinv.
  destruct st; simpl in *; subst; simpl.
  unfold fresh_timeout.
  destruct (leading cfg); simpl; repeat split; intros; try discriminate; reflexivity.
Qed.

(** C3 (amended). A call at [t] for which [shouldInvoke(t)] holds while a
    timer is outstanding and [maxWait] is set invokes the callable at once,
    whatever [leading] is, and arms a new timer: a timer for [wait], or, on
    the frame-callback path, a frame request replacing the one whose handle
    was in the slot. *)
Theorem debounced_tight_loop
    (env : Env) (cfg : Config) (st : State) (this : value) (args : list value) (t : Z)
    (id : TimeoutId) (mw : num) :
  shouldInvoke cfg t st = true ->
  timerId st = Some id ->
  maxWait cfg = Some mw ->
  let r := fst (debounced env cfg this args t st) in
  let st' := snd (debounced env cfg this args t st) in
  calls st' = calls st ++ [mkInvocation t this (Some args)]
  /\ r = call env (func cfg) this (Some args)
  /\ result st' = r
  /\ lastInvokeTime st' = t
  /\ (frame_path cfg id = false ->
        host st' = host_setTimeout (waitValue cfg) (host st)
        /\ timerId st' = Some (fresh_timeout env (host st)))
  /\ (frame_path cfg id = true ->
        host st' = host_requestFrame (host_cancelFrame (id_of id) (host st))
        /\ timerId st' = Some (IdNum (nextFrame (host st)))).
Proof.
  intros Hinv Hid Hmw. unfold_sched. rewrite Hinv, Hmw.
  destruct st; simpl in *; subst; simpl.
  unfold frame_path, fresh_timeout.
  destruct (useRAF cfg && is_number id); simpl;
    repeat split; intros; try discriminate; reflexivity.
Qed.

(** *** The handle in the slot names a callback the host still has *)

Lemma has_timeout_fresh d h : has_timeout (nextTimeout h) (host_setTimeout d h) = true.
Proof.
  unfold has_timeout, host_setTimeout. simpl.
  rewrite existsb_app. simpl. rewrite Nat.eqb_refl. apply orb_true_r.
Qed.

Lemma has_frame_fresh h : has_frame (nextFrame h) (host_requestFrame h) = true.
Proof.
  unfold has_frame, host_requestFrame. simpl.
  rewrite existsb_app. simpl. rewrite Nat.eqb_refl. apply orb_true_r.
Qed.

Ltac solve_outstanding :=
  unfold outstanding, has_timeout, has_frame; simpl;
  rewrite ?existsb_app; simpl; rewrite ?Nat.eqb_refl, ?orb_true_r; reflexivity.

Lemma debounced_outstanding env cfg this args t st :
  slot_live st -> outstanding (snd (debounced env cfg this args t st)) = true.
Proof.
  intros [Hnone | Hlive]; destruct st as [la lt r lc ti li h cs];
    simpl in *; subst; unfold_sched; simpl; case_sched;
    try solve_outstanding; try discriminate; try exact Hlive.
Qed.

Lemma timerExpired_slot_live env cfg t st : slot_live (snd (timerExpired env cfg t st)).
Proof.
  destruct st as [la lt r lc ti li h cs];
    unfold slot_live; unfold_sched; simpl; case_sched;
    solve [left; reflexivity | right; solve_outstanding].
Qed.

Lemma step_slot_live env cfg ev st : slot_live st -> slot_live (step env cfg ev st).
Proof.
  intros H. destruct ev as [this args now | | now | n now | n now]; simpl.
  - right. now apply debounced_outstanding.
  - left. unfold_sched. destruct (timerId st); simpl; case_sched; reflexivity.
  - destruct st as [la lt r lc [id|] li h cs]; unfold_sched; simpl.
    + left. case_sched; reflexivity.
    + exact H.
  - destruct (has_timeout n (host st)); [apply timerExpired_slot_live | exact H].
  - destruct (has_frame n (host st)); [apply timerExpired_slot_live | exact H].
Qed.

Lemma reachable_slot_live env cfg h0 st : reachable env cfg h0 st -> slot_live st.
Proof.
  induction 1 as [| st ev _ IH].
  - left. reflexivity.
  - now apply step_slot_live.
Qed.

(** C9 (amended). After any call to the wrapper a timer handle is in the
    slot, so [pending()] is true, and on an instance in its host that handle
    names a callback the host has outstanding.  Not every path starts a
    timer: a call that finds the slot empty starts one for [wait]; a call
    that finds a handle there starts a new one (a timer for [wait], or a
    frame request on the frame-callback path) only on the tight-loop path,
    and otherwise leaves host and slot as they are. *)
Theorem debounced_pending
    (env : Env) (cfg : Config) (st : State) (this : value) (args : list value) (t : Z) :
  let st' := snd (debounced env cfg this args t st) in
  pending st' = true
  /\ (forall h0, reachable env cfg h0 st -> outstanding st' = true)
  /\ (timerId st = None ->
        host st' = host_setTimeout (waitValue cfg) (host st)
        /\ timerId st' = Some (fresh_timeout env (host st)))
  /\ (forall id mw,
        timerId st = Some id -> shouldInvoke cfg t st = true -> maxWait cfg = Some mw ->
        host st' = (if frame_path cfg id
                    then host_requestFrame (host_cancelFrame (id_of id) (host st))
                    else host_setTimeout (waitValue cfg) (host st))
        /\ timerId st' = Some (if frame_path cfg id
                               then IdNum (nextFrame (host st))
                               else fresh_timeout env (host st)))
  /\ (forall id,
        timerId st = Some id ->
        maxWait cfg = None \/ shouldInvoke cfg t st = false ->
        host st' = host st /\ timerId st' = Some id).
Proof.
  split; [| split; [| split; [| split]]].
  - unfold pending. unfold_sched.
    destruct st as [la lt r lc [id|] li h cs]; simpl; case_sched; reflexivity.
  - intros h0 Hr. apply debounced_outstanding. eapply reachable_slot_live; eauto.
  - intros Hid. unfold fresh_timeout. unfold_sched.
    destruct st as [la lt r lc ti li h cs]; simpl in *; subst.
    destruct (shouldInvoke cfg t _); simpl; case_sched; split; reflexivity.
  - intros id mw Hid Hinv Hm. unfold frame_path, fresh_timeout. unfold_sched.
    rewrite Hinv, Hm.
    destruct st as [la lt r lc ti li h cs]; simpl in *; subst; simpl.
    destruct (useRAF cfg && is_number id); simpl; case_sched; split; reflexivity.
  - intros id Hid [Hm | Hinv]; unfold_sched.
    + rewrite Hm. destruct st as [la lt r lc ti li h cs]; simpl in *; subst.
      destruct (shouldInvoke cfg t _); simpl; split; reflexivity.
    + rewrite Hinv. destruct st as [la lt r lc ti li h cs]; simpl in *; subst.
      split; reflexivity.
Qed.

(* ------------------------------------------------------------------ *)
(** ** The trailing edge: timer expiry and [flush] *)

Lemma trailingEdge_post (env : Env) (cfg : Config) (now : Z) (st : State) :
  trailing_edge_post env cfg now st
    (fst (trailingEdge env cfg now st)) (snd (trailingEdge env cfg now st)).
Proof.
  unfold trailing_edge_post. unfold_sched.
  destruct st as [[a|] lt r lc ti li h cs]; destruct (trailing cfg); simpl;
    repeat split; intros; try discriminate; try reflexivity;
    try match goal with H : _ \/ _ |- _ => destruct H; discriminate end.
  all: match goal with H : Some _ = Some _ |- _ => inversion H; subst; reflexivity end.
Qed.

(** An instance that uses frame callbacks was built without a [wait], so its
    effective wait is 0. *)
Lemma debounce_useRAF_wait env f w o cfg :
  debounce env f w o = Return cfg -> useRAF cfg = true -> waitValue cfg = Fin 0.
Proof.
  unfold debounce. destruct (negb _); [discriminate |].
  destruct (isObject o); intros H; inversion H; subst; clear H; simpl;
    destruct w; try discriminate; reflexivity.
Qed.

(** With an effective wait of 0 every clock reading after a first call
    asks for an invocation. *)
Lemma shouldInvoke_wait0 cfg t st :
  waitValue cfg = Fin 0 -> shouldInvoke cfg t st = true.
Proof.
  intros Hw. unfold shouldInvoke. destruct (lastCallTime st) as [lct|]; [| reflexivity].
  rewrite Hw. simpl.
  destruct (Z.leb_spec 0 (t - lct)); [reflexivity |].
  destruct (Z.ltb_spec (t - lct) 0); [reflexivity | lia].
Qed.

(** C4. When the timer fires at [now] on an instance built by [debounce]:
    if [shouldInvoke(now)] holds the trailing edge runs (invoking on the
    pending payload exactly when [trailing] is on and arguments are pending,
    clearing payload and slot); otherwise nothing is invoked and a timer is
    started for [min(wait - sinceLastCall, maxWait - sinceLastInvoke)] when
    [maxWait] is set, for [wait - sinceLastCall] when it is not. *)
Theorem timerExpired_spec
    (env : Env) (f : value) (w : option num) (o : value) (cfg : Config)
    (st : State) (now : Z) :
  debounce env f w o = Return cfg ->
  let r := fst (timerExpired env cfg now st) in
  let st' := snd (timerExpired env cfg now st) in
  (shouldInvoke cfg now st = true -> trailing_edge_post env cfg now st r st')
  /\ (shouldInvoke cfg now st = false ->
        exists lct, lastCallTime st = Some lct
        /\ host st' = host_setTimeout (remaining cfg now lct st) (host st)
        /\ timerId st' = Some (fresh_timeout env (host st))
        /\ calls st' = calls st
        /\ result st' = result st
        /\ lastArgs st' = lastArgs st
        /\ r = VUndefined).
Proof.
  intros Hcfg r st'. subst r st'. split; intros Hinv.
  - unfold timerExpired, bind, gets. rewrite Hinv. apply trailingEdge_post.
  - assert (Hraf : useRAF cfg = false).
    { destruct (useRAF cfg) eqn:E; [| reflexivity].
      rewrite (shouldInvoke_wait0 cfg now st) in Hinv; [discriminate |].
      eapply debounce_useRAF_wait; eauto. }
    destruct (lastCallTime st) as [lct|] eqn:Hl.
    + exists lct. split; [reflexivity |].
      unfold_sched. rewrite Hinv. unfold remainingWait, remaining, fresh_timeout.
      rewrite Hraf.
      destruct st as [la lt r lc [id|] li h cs]; simpl in *; subst; simpl;
        repeat split; reflexivity.
    + unfold shouldInvoke in Hinv. rewrite Hl in Hinv. discriminate.
Qed.

(** *** The result is what the latest invocation returned *)

Lemma last_return_snoc env cfg l i :
  last_return env cfg (l ++ [i]) = call env (func cfg) (inv_this i) (inv_args i).
Proof. unfold last_return. rewrite rev_app_distr. reflexivity. Qed.

Ltac solve_result_inv :=
  unfold result_inv; unfold_sched; simpl; case_sched;
  intros; simpl in *; rewrite ?last_return_snoc; simpl; auto.

Lemma debounced_result_inv env cfg this args t st :
  result_inv env cfg st -> result_inv env cfg (snd (debounced env cfg this args t st)).
Proof. destruct st as [la lt r lc ti li h cs]. solve_result_inv. Qed.

Lemma timerExpired_result_inv env cfg t st :
  result_inv env cfg st -> result_inv env cfg (snd (timerExpired env cfg t st)).
Proof. destruct st as [la lt r lc ti li h cs]. solve_result_inv. Qed.

Lemma flush_result_inv env cfg t st :
  result_inv env cfg st -> result_inv env cfg (snd (flush env cfg t st)).
Proof. destruct st as [la lt r lc ti li h cs]. solve_result_inv. Qed.

Lemma cancel_result_inv env cfg st :
  result_inv env cfg st -> result_inv env cfg (snd (cancel cfg st)).
Proof. destruct st as [la lt r lc ti li h cs]. solve_result_inv. Qed.

Lemma step_result_inv env cfg ev st :
  result_inv env cfg st -> result_inv env cfg (step env cfg ev st).
Proof.
  intros H. destruct ev as [this args now | | now | n now | n now]; simpl.
  - now apply debounced_result_inv.
  - now apply cancel_result_inv.
  - now apply flush_result_inv.
  - destruct (has_timeout n (host st)); [| assumption].
    apply timerExpired_result_inv. exact H.
  - destruct (has_frame n (host st)); [| assumption].
    apply timerExpired_result_inv. exact H.
Qed.

Lemma reachable_result_inv env cfg h0 st :
  reachable env cfg h0 st -> result_inv env cfg st.
Proof.
  induction 1 as [| st ev _ IH].
  - reflexivity.
  - now apply step_result_inv.
Qed.

Lemma reachable_run env cfg h0 evs : forall st,
  reachable env cfg h0 st -> reachable env cfg h0 (run env cfg evs st).
Proof.
  induction evs as [| ev evs IH]; intros st Hr; [exact Hr |].
  apply (IH (step env cfg ev st)). now apply reach_step.
Qed.

(** C5. [flush()] with a timer outstanding runs the trailing edge at the
    current time and returns what it returns; with none outstanding it
    returns the current result and changes no state, and that result is
    [undefined] on an instance whose callable was never invoked.  A second
    [flush()] right after a first returns the same value and changes
    nothing. *)
Theorem flush_spec (env : Env) (cfg : Config) (now : Z) :
  (forall st id, timerId st = Some id ->
     flush env cfg now st = trailingEdge env cfg now st
     /\ trailing_edge_post env cfg now st
          (fst (flush env cfg now st)) (snd (flush env cfg now st)))
  /\ (forall st, timerId st = None -> flush env cfg now st = (result st, st))
  /\ (forall h0 st, reachable env cfg h0 st -> calls st = [] -> result st = VUndefined)
  /\ (forall st now', flush env cfg now' (snd (flush env cfg now st))
                      = flush env cfg now st).
Proof.
  split; [| split; [| split]].
  - intros st id Hid.
    assert (E : flush env cfg now st = trailingEdge env cfg now st).
    { unfold flush, bind, gets. rewrite Hid. reflexivity. }
    split; [exact E |]. rewrite E. apply trailingEdge_post.
  - intros st Hid. unfold flush, bind, gets. rewrite Hid. reflexivity.
  - intros h0 st Hr Hc. apply reachable_result_inv in Hr.
    unfold result_inv in Hr. rewrite Hr, Hc. reflexivity.
  - intros st now'. unfold_sched.
    destruct st as [la lt r lc [id|] li h cs]; simpl; [| reflexivity].
    destruct (trailing cfg); destruct la; reflexivity.
Qed.

(* ------------------------------------------------------------------ *)
(** ** [cancel] *)

Ltac solve_idle_inv :=
  unfold idle_inv; unfold_sched; simpl; case_sched;
  intros; simpl in *; try discriminate; auto.

Lemma step_idle_inv env cfg ev st : idle_inv st -> idle_inv (step env cfg ev st).
Proof.
  destruct ev as [this args now | | now | n now | n now]; simpl.
  - destruct st as [la lt r lc ti li h cs]. solve_idle_inv.
  - destruct st as [la lt r lc ti li h cs]. solve_idle_inv.
  - destruct st as [la lt r lc ti li h cs]. solve_idle_inv.
  - destruct (has_timeout n (host st)); [| auto].
    destruct st as [la lt r lc ti li h cs]. solve_idle_inv.
  - destruct (has_frame n (host st)); [| auto].
    destruct st as [la lt r lc ti li h cs]. solve_idle_inv.
Qed.

Lemma reachable_idle_inv env cfg h0 st : reachable env cfg h0 st -> idle_inv st.
Proof.
  induction 1 as [| st ev _ IH].
  - split; reflexivity.
  - now apply step_idle_inv.
Qed.

Lemma has_timeout_clear n h : has_timeout n (host_clearTimeout n h) = false.
Proof.
  unfold has_timeout, host_clearTimeout. simpl.
  induction (timeouts h) as [| [m d] l IH]; simpl; [reflexivity |].
  destruct (Nat.eqb m n) eqn:E; simpl; [exact IH |].
  rewrite E. exact IH.
Qed.

Lemma has_frame_cancel n h : has_frame n (host_cancelFrame n h) = false.
Proof.
  unfold has_frame, host_cancelFrame. simpl.
  induction (frames h) as [| m l IH]; simpl; [reflexivity |].
  destruct (Nat.eqb m n) eqn:E; simpl; [exact IH |].
  rewrite E. exact IH.
Qed.

(** C6 (amended). [cancel()] takes the timer whose handle is in the slot out
    of the host, sets [lastArgs], [lastThis], [lastCallTime] and [timerId]
    to [undefined] and [lastInvokeTime] to 0, and leaves [result] and the
    invocation history alone; a second [cancel()] changes nothing more.
    With no timer in the slot it leaves the host alone and, on a state an
    instance can reach, changes [lastCallTime] and [lastInvokeTime] only. *)
Theorem cancel_spec (env : Env) (cfg : Config) (st : State) :
  let st' := snd (cancel cfg st) in
  (lastArgs st' = None /\ lastThis st' = VUndefined /\ lastCallTime st' = None
   /\ timerId st' = None /\ lastInvokeTime st' = 0)
  /\ (result st' = result st /\ calls st' = calls st)
  /\ (forall id, timerId st = Some id ->
        host st' = host_clearTimeout (id_of id)
                     (if frame_path cfg id then host_cancelFrame (id_of id) (host st)
                      else host st)
        /\ has_timeout (id_of id) (host st') = false
        /\ (frame_path cfg id = true -> has_frame (id_of id) (host st') = false))
  /\ snd (cancel cfg st') = st'
  /\ (timerId st = None -> host st' = host st)
  /\ (forall h0, reachable env cfg h0 st -> timerId st = None ->
        st' = set_lastCallTime None (set_lastInvokeTime 0 st)).
Proof.
  intros st'. subst st'.
  split; [| split; [| split; [| split; [| split]]]].
  - unfold_sched. destruct (timerId st); simpl; case_sched; repeat split; reflexivity.
  - unfold_sched. destruct (timerId st); simpl; case_sched; split; reflexivity.
  - intros id Hid. unfold_sched. unfold frame_path. rewrite Hid.
    destruct (useRAF cfg && is_number id) eqn:Hf; simpl;
      (split; [reflexivity | split]);
      try apply has_timeout_clear; intros; try discriminate.
    unfold has_frame. simpl. apply has_frame_cancel.
  - unfold_sched. destruct (timerId st); simpl; case_sched; reflexivity.
  - intros Hid. unfold_sched. rewrite Hid. reflexivity.
  - intros h0 Hr Hid. apply reachable_idle_inv in Hr. destruct (Hr Hid) as [Ha Ht].
    unfold_sched.
    destruct st as [la lt r lc ti li h cs]; simpl in *; subst. reflexivity.
Qed.

(* ------------------------------------------------------------------ *)
(** ** Construction *)

(** C7. Construction throws the [TypeError] exactly when [func] is not a
    function, and then yields no instance; with a function and an [options]
    value that is not an object it succeeds with [leading = false],
    [trailing = true] and no [maxWait]. *)
Theorem debounce_construction (env : Env) (f : value) (w : option num) (o : value) :
  (debounce env f w o = Throw (TypeError "Expected a function")
   <-> typeof f <> "function"%string)
  /\ (typeof f <> "function"%string -> forall cfg, debounce env f w o <> Return cfg)
  /\ (typeof f = "function"%string -> isObject o = false ->
        exists cfg, debounce env f w o = Return cfg
        /\ leading cfg = false /\ trailing cfg = true /\ maxWait cfg = None).
Proof.
  unfold debounce.
  destruct (String.eqb_spec (typeof f) "function") as [E | E]; simpl.
  - split; [| split].
    + split; [| tauto]. destruct (isObject o); discriminate.
    + tauto.
    + intros _ Ho. rewrite Ho. eexists. repeat split.
  - split; [| split].
    + tauto.
    + intros _ cfg. discriminate.
    + tauto.
Qed.

(** C8 (amended). The effective wait is the number coerced from the [wait]
    parameter, never NaN: 0 when [wait] is absent or NaN, the given number
    otherwise, so non-negative when that number is, and the same negative
    number when it is negative. *)
Theorem waitValue_coercion
    (env : Env) (f : value) (w : option num) (o : value) (cfg : Config) :
  debounce env f w o = Return cfg ->
  waitValue cfg = Num.or0 (Number_opt w)
  /\ Num.is_nan (waitValue cfg) = false
  /\ (w = None \/ w = Some NaN -> waitValue cfg = Fin 0)
  /\ (forall n, w = Some n -> Num.is_nan n = false -> waitValue cfg = n)
  /\ (forall n, w = Some n -> Num.ge n (Fin 0) -> Num.ge (waitValue cfg) (Fin 0))
  /\ (forall n, w = Some n -> Num.lt n (Fin 0) -> Num.lt (waitValue cfg) (Fin 0)).
Proof.
  intros H.
  assert (E : waitValue cfg = Num.or0 (Number_opt w)).
  { unfold debounce in H. destruct (negb _); [discriminate |].
    destruct (isObject o); inversion H; reflexivity. }
  rewrite E. split; [reflexivity |]. split; [apply or0_not_nan |].
  split; [| split; [| split]].
  - intros [-> | ->]; reflexivity.
  - intros n -> Hn. destruct n as [| |z|]; try discriminate; try reflexivity.
    destruct z; reflexivity.
  - intros n -> Hn. destruct n as [| |z|]; simpl in *; try tauto.
    destruct z; simpl in *; lia.
  - intros n -> Hn. destruct n as [| |z|]; simpl in *; try tauto.
    destruct z; simpl in *; lia.
Qed.

(* ------------------------------------------------------------------ *)
(** ** A burst of one call *)

(** Without pending arguments nothing but a call makes the callable run. *)
Lemma quiet_step env cfg ev st :
  is_call ev = false -> lastArgs st = None ->
  lastArgs (step env cfg ev st) = None /\ calls (step env cfg ev st) = calls st.
Proof.
  intros Hev Hla.
  destruct ev as [this args now | | now | n now | n now]; simpl in *;
    try discriminate;
    destruct st as [la lt r lc ti li h cs]; simpl in *; subst;
    unfold_sched; destruct (trailing cfg); simpl; case_sched; split; reflexivity.
Qed.

Lemma quiet_run env cfg evs : forall st,
  forallb (fun ev => negb (is_call ev)) evs = true -> lastArgs st = None ->
  calls (run env cfg evs st) = calls st.
Proof.
  induction evs as [| ev evs IH]; intros st Hevs Hla; [reflexivity |].
  change (run env cfg (ev :: evs) st) with (run env cfg evs (step env cfg ev st)).
  simpl in Hevs. apply andb_true_iff in Hevs. destruct Hevs as [Hev Hevs].
  apply negb_true_iff in Hev.
  destruct (quiet_step env cfg ev st Hev Hla) as [Hla' Hc].
  rewrite IH; assumption.
Qed.

(** C10. With [leading] and [trailing] both on, a call that opens a burst
    ([shouldInvoke] holds, no timer outstanding) invokes the callable once
    and leaves no pending arguments, so whatever timers fire afterwards, at
    whatever times, and whatever else happens short of another call, the
    callable has been invoked exactly once. *)
Theorem single_call_invokes_once
    (env : Env) (cfg : Config) (st : State) (this : value) (args : list value) (t : Z)
    (later : list event) :
  leading cfg = true ->
  trailing cfg = true ->
  timerId st = None ->
  shouldInvoke cfg t st = true ->
  forallb (fun ev => negb (is_call ev)) later = true ->
  let st1 := step env cfg (Call this args t) st in
  lastArgs st1 = None
  /\ calls st1 = calls st ++ [mkInvocation t this (Some args)]
  /\ calls (run env cfg later st1) = calls st ++ [mkInvocation t this (Some args)].
Proof.
  intros Hl Ht Hid Hinv Hlater st1.
  assert (H1 : lastArgs st1 = None
               /\ calls st1 = calls st ++ [mkInvocation t this (Some args)]).
  { subst st1. simpl. unfold_sched. rewrite Hinv, Hl.
    destruct st as [la lt r lc ti li h cs]; simpl in *; subst. split; reflexivity. }
  destruct H1 as [Ha Hc]. repeat split; try assumption.
  rewrite quiet_run; assumption.
Qed.

(* ------------------------------------------------------------------ *)
(** ** The theorems at work on the scenarios *)

Lemma debounced_leading_edge_witness :
  shouldInvoke cfg_lead 5 (init host0) = true
  /\ timerId (init host0) = None
  /\ lastInvokeTime (snd (debounced node cfg_lead VUndefined [VStr "a"] 5 (init host0))) = 5.
Proof.
  split; [reflexivity | split; [reflexivity |]].
  exact (proj1 (debounced_leading_edge node cfg_lead (init host0) VUndefined
                  [VStr "a"] 5 eq_refl eq_refl)).
Defined.

Lemma debounced_tight_loop_witness :
  shouldInvoke cfg_32_64 70 (after_call node cfg_32_64) = true
  /\ timerId (after_call node cfg_32_64) = Some (IdObj 1)
  /\ maxWait cfg_32_64 = Some (Fin 64)
  /\ fst (debounced node cfg_32_64 VUndefined [VStr "b"] 70 (after_call node cfg_32_64))
     = VStr "b".
Proof.
  split; [reflexivity | split; [reflexivity | split; [reflexivity |]]].
  exact (proj1 (proj2 (debounced_tight_loop node cfg_32_64 (after_call node cfg_32_64)
                         VUndefined [VStr "b"] 70 (IdObj 1) (Fin 64)
                         eq_refl eq_refl eq_refl))).
Defined.

(** C3 as stated fails on the frame-callback path: in a browser, on an
    instance built without [wait] and with [maxWait], a second call in the
    same millisecond meets the three conditions, yet no timer is started:
    the host's timers are the same and a frame callback is requested. *)
Lemma tight_loop_requests_frame :
  debounce browser (VFun 0) None (VObj (mkOptions (Has (Fin 5)) Missing Missing))
  = Return cfg_raf
  /\ shouldInvoke cfg_raf 0 (after_call browser cfg_raf) = true
  /\ timerId (after_call browser cfg_raf) = Some (IdNum 1)
  /\ maxWait cfg_raf = Some (Fin 5)
  /\ let st' := snd (debounced browser cfg_raf VUndefined [VStr "b"] 0
                       (after_call browser cfg_raf)) in
     timeouts (host st') = timeouts (host (after_call browser cfg_raf))
     /\ host st' <> host_setTimeout (waitValue cfg_raf) (host (after_call browser cfg_raf))
     /\ frames (host st') = [1%nat].
Proof.
  repeat split; try reflexivity. discriminate.
Qed.

Lemma timerExpired_spec_witness :
  debounce node (VFun 0) (Some (Fin 32)) VUndefined = Return cfg_32
  /\ exists lct, lastCallTime (after_call node cfg_32) = Some lct
     /\ host (snd (timerExpired node cfg_32 10 (after_call node cfg_32)))
        = host_setTimeout (remaining cfg_32 10 lct (after_call node cfg_32))
            (host (after_call node cfg_32)).
Proof.
  split; [reflexivity |].
  destruct (proj2 (timerExpired_spec node (VFun 0) (Some (Fin 32)) VUndefined cfg_32
                     (after_call node cfg_32) 10 eq_refl) eq_refl)
    as (lct & Hl & Hh & _).
  exists lct. split; assumption.
Defined.

Lemma flush_spec_witness :
  timerId (after_call node cfg_32) = Some (IdObj 1)
  /\ fst (flush node cfg_32 10 (after_call node cfg_32)) = VStr "a"
  /\ flush node cfg_32 10 (init host0) = (VUndefined, init host0).
Proof.
  destruct (flush_spec node cfg_32 10) as (Hsome & Hnone & _ & _).
  split; [reflexivity |]. split.
  - destruct (Hsome (after_call node cfg_32) (IdObj 1) eq_refl) as [_ Hpost].
    destruct Hpost as (_ & _ & _ & _ & _ & Hinv & _).
    exact (proj1 (proj2 (Hinv eq_refl [VStr "a"] eq_refl))).
  - exact (Hnone (init host0) eq_refl).
Defined.

(** C6 as stated fails in its last part: after a leading call at 0 and a
    [flush()] at 10 nothing is pending, yet [cancel()] changes the state,
    and visibly: the next call, at 20, invokes the callable and returns the
    fresh value, where without the [cancel()] it returns the stale one. *)
Lemma cancel_when_idle_is_not_noop :
  reachable node cfg_lead host0 flushed
  /\ pending flushed = false
  /\ lastArgs flushed = None
  /\ snd (cancel cfg_lead flushed) <> flushed
  /\ fst (debounced node cfg_lead VUndefined [VStr "b"] 20 flushed) = VStr "a"
  /\ fst (debounced node cfg_lead VUndefined [VStr "b"] 20 (snd (cancel cfg_lead flushed)))
     = VStr "b".
Proof.
  split.
  - apply reachable_run, reach_init.
  - repeat split; try reflexivity. discriminate.
Qed.

Lemma cancel_spec_witness :
  timerId (after_call node cfg_32) = Some (IdObj 1)
  /\ has_timeout 1 (host (after_call node cfg_32)) = true
  /\ has_timeout 1 (host (snd (cancel cfg_32 (after_call node cfg_32)))) = false.
Proof.
  split; [reflexivity | split; [reflexivity |]].
  destruct (cancel_spec node cfg_32 (after_call node cfg_32))
    as (_ & _ & Hh & _).
  exact (proj1 (proj2 (Hh (IdObj 1) eq_refl))).
Defined.

Lemma debounce_construction_witness :
  typeof (VFun 0) = "function"%string
  /\ isObject (VNum (Fin 1)) = false
  /\ exists cfg, debounce node (VFun 0) (Some (Fin 32)) (VNum (Fin 1)) = Return cfg
     /\ leading cfg = false /\ trailing cfg = true /\ maxWait cfg = None.
Proof.
  split; [reflexivity | split; [reflexivity |]].
  exact (proj2 (proj2 (debounce_construction node (VFun 0) (Some (Fin 32)) (VNum (Fin 1))))
           eq_refl eq_refl).
Defined.

(** C8 as stated fails for a negative [wait]: it is kept as it is. *)
Lemma negative_wait_is_kept :
  debounce node (VFun 0) (Some (Fin (-5))) VUndefined
  = Return (mkConfig (VFun 0) (Fin (-5)) false true None false)
  /\ ~ Num.ge (Fin (-5)) (Fin 0).
Proof.
  split; [reflexivity |]. simpl. lia.
Qed.

Lemma waitValue_coercion_witness :
  debounce node (VFun 0) None VUndefined
  = Return (mkConfig (VFun 0) (Fin 0) false true None false)
  /\ waitValue (mkConfig (VFun 0) (Fin 0) false true None false) = Fin 0.
Proof.
  split; [reflexivity |].
  destruct (waitValue_coercion node (VFun 0) None VUndefined
              (mkConfig (VFun 0) (Fin 0) false true None false) eq_refl)
    as (_ & _ & H & _).
  apply H. left. reflexivity.
Defined.

Lemma single_call_invokes_once_witness :
  leading cfg_lead = true
  /\ trailing cfg_lead = true
  /\ timerId (init host0) = None
  /\ shouldInvoke cfg_lead 0 (init host0) = true
  /\ calls (run node cfg_lead [TimeoutFires 1 50; TimeoutFires 2 100]
              (step node cfg_lead (Call VUndefined [VStr "a"] 0) (init host0)))
     = [mkInvocation 0 VUndefined (Some [VStr "a"])].
Proof.
  repeat (split; [reflexivity |]).
  exact (proj2 (proj2 (single_call_invokes_once node cfg_lead (init host0) VUndefined
                         [VStr "a"] 0 [TimeoutFires 1 50; TimeoutFires 2 100]
                         eq_refl eq_refl eq_refl eq_refl eq_refl))).
Defined.

Lemma debounced_pending_witness :
  reachable node cfg_32 host0 (init host0)
  /\ pending (after_call node cfg_32) = true
  /\ outstanding (after_call node cfg_32) = true
  /\ host (after_call node cfg_32) = host_setTimeout (Fin 32) host0.
Proof.
  split; [apply reach_init |].
  destruct (debounced_pending node cfg_32 (init host0) VUndefined [VStr "a"] 0)
    as (Hp & Ho & Harm & _).
  split; [exact Hp |].
  split; [exact (Ho host0 (reach_init node cfg_32 host0)) |].
  exact (proj1 (Harm eq_refl)).
Defined.

(** C9 as stated fails in its last part: a second call 5 ms after the first
    finds the timer handle in the slot and neither arms nor re-arms
    anything; the host's callbacks, its counters and the slot are the same
    before and after, though [pending()] is true. *)
Lemma busy_call_starts_no_timer :
  let st := after_call node cfg_32 in
  let st' := snd (debounced node cfg_32 VUndefined [VStr "b"] 5 st) in
  reachable node cfg_32 host0 st
  /\ timerId st = Some (IdObj 1)
  /\ host st' = host st
  /\ timerId st' = timerId st
  /\ pending st' = true.
Proof.
  split; [apply reach_step, reach_init |].
  repeat split; reflexivity.
Qed.

(* ------------------------------------------------------------------ *)
(** ** The model against the test suite *)

(** "should debounce a function": three calls return [undefined] and invoke
    nothing; the timer then invokes once, with the last arguments; three
    more calls return that result. *)
Example test_should_debounce :
  let burst1 := [([VStr "a"], 0); ([VStr "b"], 0); ([VStr "c"], 0)] in
  let burst2 := [([VStr "d"], 128); ([VStr "e"], 128); ([VStr "f"], 128)] in
  let (rs1, st1) := call_results node cfg_32 burst1 (init host0) in
  let st2 := step node cfg_32 (TimeoutFires 1 32) st1 in
  let (rs2, st3) := call_results node cfg_32 burst2 st2 in
  rs1 = [VUndefined; VUndefined; VUndefined]
  /\ calls st1 = []
  /\ calls st2 = [mkInvocation 32 VUndefined (Some [VStr "c"])]
  /\ rs2 = [VStr "c"; VStr "c"; VStr "c"]
  /\ calls st3 = calls st2.
Proof. vm_compute. repeat split. Qed.

(** "subsequent leading debounced calls return the last func result" *)
Example test_leading_only :
  let cfg := mkConfig (VFun 0) (Fin 32) true false None false in
  debounce node (VFun 0) (Some (Fin 32))
    (VObj (mkOptions Missing (Has true) (Has false))) = Return cfg
  /\ fst (call_results node cfg [([VStr "a"], 0); ([VStr "b"], 0)] (init host0))
     = [VStr "a"; VStr "a"].
Proof. vm_compute. split; reflexivity. Qed.

(** "should support a maxWait option": two calls invoke nothing, and the
    timer started by the first invokes once when it fires. *)
Example test_maxWait :
  debounce node (VFun 0) (Some (Fin 32))
    (VObj (mkOptions (Has (Fin 64)) Missing Missing)) = Return cfg_32_64
  /\ let (_, st1) := call_results node cfg_32_64 [([VNull], 0); ([VNull], 0)] (init host0) in
     calls st1 = []
     /\ List.length (calls (step node cfg_32_64 (TimeoutFires 1 32) st1)) = 1%nat.
Proof. vm_compute. repeat split. Qed.

(* ------------------------------------------------------------------ *)
(** ** Construction, further *)

(** X1. [isObject] holds of objects only: not of [null] or [undefined],
    not of a primitive, not of a function. *)
Theorem isObject_iff (v : value) :
  isObject v = true <-> exists o, v = VObj o.
Proof.
  split.
  - destruct v; simpl; try discriminate. eauto.
  - intros [o ->]. reflexivity.
Qed.

Lemma max_bounds a b :
  Num.is_nan a = false -> Num.is_nan b = false ->
  Num.is_nan (Num.max a b) = false
  /\ Num.ge (Num.max a b) a /\ Num.ge (Num.max a b) b.
Proof.
  destruct a as [| |x|], b as [| |y|]; simpl; intros; try discriminate;
    repeat split; try exact I; try lia.
  all: destruct (Z.ltb_spec x y); simpl; try reflexivity; lia.
Qed.

(** X2. On an instance built by [debounce], a [maxWait] that is set is a
    number (not NaN) and is at least the effective wait. *)
Theorem maxWait_at_least_wait
    (env : Env) (f : value) (w : option num) (o : value) (cfg : Config) (mw : num) :
  debounce env f w o = Return cfg ->
  maxWait cfg = Some mw ->
  Num.is_nan mw = false /\ Num.ge mw (waitValue cfg).
Proof.
  unfold debounce. destruct (negb _); [discriminate |].
  destruct (isObject o); intros H; inversion H; subst; clear H; simpl;
    [| discriminate].
  destruct (has_prop (o_maxWait (props_of o))); [| discriminate].
  intros E. inversion E; subst; clear E.
  destruct (max_bounds (Num.or0 (Number_prop (o_maxWait (props_of o))))
              (Num.or0 (Number_opt w)) (or0_not_nan _) (or0_not_nan _))
    as (Hn & _ & Hge).
  split; assumption.
Qed.

Lemma maxWait_at_least_wait_witness :
  debounce node (VFun 0) (Some (Fin 32)) (VObj (mkOptions (Has (Fin 5)) Missing Missing))
  = Return (mkConfig (VFun 0) (Fin 32) false true (Some (Fin 32)) false)
  /\ Num.ge (Fin 32) (Fin 32).
Proof.
  split; [reflexivity |].
  exact (proj2 (maxWait_at_least_wait node (VFun 0) (Some (Fin 32))
                  (VObj (mkOptions (Has (Fin 5)) Missing Missing))
                  (mkConfig (VFun 0) (Fin 32) false true (Some (Fin 32)) false)
                  (Fin 32) eq_refl eq_refl)).
Defined.

(** X3. How the constructor reads [options], for a callable [func]: the
    instance keeps [func]; [leading] is on exactly when [options] is an
    object whose [leading] is [true]; [trailing] is off exactly when
    [options] is an object that has a [trailing] key whose value is not
    [true] (a key holding [undefined] counts); [maxWait] is set exactly when
    [options] is an object that has a [maxWait] key. *)
Theorem debounce_reads_options (env : Env) (f : value) (w : option num) (o : value) :
  typeof f = "function"%string ->
  exists cfg, debounce env f w o = Return cfg
  /\ func cfg = f
  /\ (leading cfg = true <-> exists p, o = VObj p /\ o_leading p = Has true)
  /\ (trailing cfg = false <->
        exists p, o = VObj p /\ (o_trailing p = Undef \/ o_trailing p = Has false))
  /\ (maxWait cfg <> None <-> exists p, o = VObj p /\ o_maxWait p <> Missing).
Proof.
  intros Hf. unfold debounce. rewrite Hf. simpl.
  destruct o as [| | b | n | s | g | p]; simpl;
    try (eexists; split; [reflexivity |]; simpl; split; [reflexivity |];
         repeat split; try discriminate; try congruence;
         intros (p & E & _); discriminate).
  eexists; split; [reflexivity |]; simpl; split; [reflexivity |].
  destruct p as [pm pl pt]; simpl. split; [| split].
  - split.
    + intros H. exists (mkOptions pm pl pt). split; [reflexivity |]. simpl.
      destruct pl as [| | []]; simpl in H; try discriminate. reflexivity.
    + intros (p & E & H). inversion E; subst. simpl in H. rewrite H. reflexivity.
  - split.
    + intros H. exists (mkOptions pm pl pt). split; [reflexivity |]. simpl.
      destruct pt as [| | []]; simpl in H; try discriminate; auto.
    + intros (p & E & H). inversion E; subst. simpl in H.
      destruct H as [H | H]; rewrite H; reflexivity.
  - split.
    + intros H. exists (mkOptions pm pl pt). split; [reflexivity |]. simpl.
      destruct pm; simpl in H; congruence.
    + intros (p & E & H). inversion E; subst. simpl in H.
      destruct pm; simpl; congruence.
Qed.

Lemma debounce_reads_options_witness :
  typeof (VFun 0) = "function"%string
  /\ exists cfg,
       debounce node (VFun 0) (Some (Fin 32)) (VObj (mkOptions Missing Missing Undef))
       = Return cfg
       /\ func cfg = VFun 0.
Proof.
  split; [reflexivity |].
  destruct (debounce_reads_options node (VFun 0) (Some (Fin 32))
              (VObj (mkOptions Missing Missing Undef)) eq_refl)
    as (cfg & H & Hf & _).
  exists cfg. split; assumption.
Defined.

(* ------------------------------------------------------------------ *)
(** ** Frame callbacks *)

(** X4. An instance uses frame callbacks exactly when it was built without
    [wait] on a host that has [requestAnimationFrame]; an instance that does
    not use them never requests or cancels a frame, whatever happens to it. *)
Theorem frames_only_without_wait
    (env : Env) (f : value) (w : option num) (o : value) (cfg : Config) :
  debounce env f w o = Return cfg ->
  (useRAF cfg = true <-> w = None /\ hasRAF env = true)
  /\ (useRAF cfg = false -> forall ev st,
        is_frame_fire ev = false ->
        frames (host (step env cfg ev st)) = frames (host st)
        /\ nextFrame (host (step env cfg ev st)) = nextFrame (host st)).
Proof.
  intros H. split.
  - unfold debounce in H. destruct (negb _); [discriminate |].
    destruct (isObject o); inversion H; subst; clear H; simpl;
      destruct w; split; try tauto; try discriminate;
      intros [E _]; discriminate.
  - intros Hraf ev st Hev.
    destruct ev as [this args now | | now | n now | n now]; simpl in *;
      try discriminate;
      try (destruct (has_timeout n (host st)); [| split; reflexivity]);
      destruct st as [la lt r lc ti li h cs];
      unfold_sched; rewrite ?Hraf; simpl; case_sched; split; reflexivity.
Qed.

Lemma frames_only_without_wait_witness :
  debounce browser (VFun 0) (Some (Fin 0)) VUndefined
  = Return (mkConfig (VFun 0) (Fin 0) false true None false)
  /\ useRAF (mkConfig (VFun 0) (Fin 0) false true None false) <> true.
Proof.
  split; [reflexivity |].
  intros H.
  destruct (proj1 (proj1 (frames_only_without_wait browser (VFun 0) (Some (Fin 0))
                            VUndefined _ eq_refl)) H) as [E _].
  discriminate E.
Defined.

(* ------------------------------------------------------------------ *)
(** ** What one call does *)

(** X5. Any call either invokes nothing, keeps its receiver and arguments
    as the pending payload and returns the previous result, or invokes the
    callable once, on its own receiver and arguments, leaves no payload
    pending and returns the fresh result.  In both cases it records its
    clock reading as [lastCallTime]. *)
Theorem call_invokes_own_payload
    (env : Env) (cfg : Config) (st : State) (this : value) (args : list value) (t : Z) :
  let r := fst (debounced env cfg this args t st) in
  let st' := snd (debounced env cfg this args t st) in
  lastCallTime st' = Some t
  /\ ((calls st' = calls st /\ lastArgs st' = Some args /\ lastThis st' = this
       /\ r = result st /\ result st' = result st
       /\ lastInvokeTime st' = (if shouldInvoke cfg t st && negb (pending st)
                                then t else lastInvokeTime st))
      \/ (calls st' = calls st ++ [mkInvocation t this (Some args)]
          /\ lastArgs st' = None /\ lastThis st' = VUndefined
          /\ r = call env (func cfg) this (Some args) /\ result st' = r
          /\ lastInvokeTime st' = t)).
Proof.
  unfold pending. unfold_sched.
  destruct st as [la lt r0 lc [id|] li h cs]; simpl;
    destruct (shouldInvoke cfg t _); simpl;
    case_sched; split; try reflexivity;
    first [ left; repeat split; reflexivity | right; repeat split; reflexivity ].
Qed.

Lemma plain_call_effect env cfg st this args t :
  leading cfg = false ->
  maxWait cfg = None ->
  calls (snd (debounced env cfg this args t st)) = calls st
  /\ fst (debounced env cfg this args t st) = result st
  /\ result (snd (debounced env cfg this args t st)) = result st
  /\ lastArgs (snd (debounced env cfg this args t st)) = Some args
  /\ lastThis (snd (debounced env cfg this args t st)) = this
  /\ lastCallTime (snd (debounced env cfg this args t st)) = Some t.
Proof.
  intros Hl Hm. unfold_sched. rewrite Hl, Hm.
  destruct st as [la lt r0 lc [id|] li h cs]; simpl;
    destruct (shouldInvoke cfg t _); simpl; case_sched; repeat split; reflexivity.
Qed.

(** X6. Without [leading] and without [maxWait] a call never invokes the
    callable: it returns the previous result and keeps its payload for the
    timer. *)
Theorem plain_call_never_invokes
    (env : Env) (cfg : Config) (st : State) (this : value) (args : list value) (t : Z) :
  leading cfg = false ->
  maxWait cfg = None ->
  let st' := snd (debounced env cfg this args t st) in
  calls st' = calls st
  /\ fst (debounced env cfg this args t st) = result st
  /\ result st' = result st
  /\ lastArgs st' = Some args
  /\ lastThis st' = this.
Proof.
  intros Hl Hm st'. subst st'.
  destruct (plain_call_effect env cfg st this args t Hl Hm) as (H1 & H2 & H3 & H4 & H5 & _).
  repeat split; assumption.
Qed.

Lemma plain_call_never_invokes_witness :
  leading cfg_32 = false
  /\ maxWait cfg_32 = None
  /\ calls (snd (debounced node cfg_32 VUndefined [VStr "a"] 0 (init host0))) = [].
Proof.
  split; [reflexivity | split; [reflexivity |]].
  exact (proj1 (plain_call_never_invokes node cfg_32 (init host0) VUndefined
                  [VStr "a"] 0 eq_refl eq_refl)).
Defined.

Lemma run_app env cfg l1 l2 st :
  run env cfg (l1 ++ l2) st = run env cfg l2 (run env cfg l1 st).
Proof. unfold run. apply fold_left_app. Qed.

Lemma plain_calls_never_invoke env cfg cs : forall st,
  leading cfg = false -> maxWait cfg = None ->
  calls (run env cfg (map call_event cs) st) = calls st.
Proof.
  induction cs as [| [[this args] t] cs IH]; intros st Hl Hm; [reflexivity |].
  change (run env cfg (map call_event ((this, args, t) :: cs)) st)
    with (run env cfg (map call_event cs) (step env cfg (Call this args t) st)).
  rewrite IH by assumption. simpl.
  exact (proj1 (plain_call_effect env cfg st this args t Hl Hm)).
Qed.

(** X7. Without [leading] and [maxWait] and with [trailing], any number of
    calls in a row invoke nothing, and when the timer then fires at least
    [wait] after the last of them the callable is invoked once, on the
    receiver and arguments of that last call; its return value is the
    result, and no timer is left in the slot. *)
Theorem burst_invokes_once_with_last_args
    (env : Env) (cfg : Config) (st : State)
    (earlier : list (value * list value * Z))
    (this : value) (args : list value) (t now : Z) :
  leading cfg = false ->
  maxWait cfg = None ->
  trailing cfg = true ->
  Num.ge (Fin (now - t)) (waitValue cfg) ->
  let st1 := run env cfg (map call_event (earlier ++ [(this, args, t)])) st in
  let st2 := snd (timerExpired env cfg now st1) in
  calls st1 = calls st
  /\ calls st2 = calls st ++ [mkInvocation now this (Some args)]
  /\ result st2 = call env (func cfg) this (Some args)
  /\ fst (timerExpired env cfg now st1) = result st2
  /\ pending st2 = false.
Proof.
  intros Hl Hm Ht Hge st1 st2.
  assert (H1 : calls st1 = calls st) by (apply plain_calls_never_invoke; assumption).
  assert (E : st1 = step env cfg (Call this args t)
                      (run env cfg (map call_event earlier) st)).
  { subst st1. rewrite map_app, run_app. reflexivity. }
  destruct (plain_call_effect env cfg (run env cfg (map call_event earlier) st)
              this args t Hl Hm) as (_ & _ & _ & Ha & Hth & Hc).
  simpl in E. rewrite <- E in Ha, Hth, Hc.
  assert (Hinv : shouldInvoke cfg now st1 = true).
  { unfold shouldInvoke. rewrite Hc. apply geb_ge in Hge. rewrite Hge. reflexivity. }
  assert (Ex : timerExpired env cfg now st1 = trailingEdge env cfg now st1).
  { unfold timerExpired, bind, gets. rewrite Hinv. reflexivity. }
  subst st2. rewrite Ex.
  destruct (trailingEdge_post env cfg now st1) as (Hid & _ & _ & _ & _ & Hyes & _).
  destruct (Hyes Ht args Ha) as (Hcalls & Hr & Hres & _).
  rewrite Hth, H1 in Hcalls. rewrite Hth in Hr.
  split; [exact H1 |]. split; [exact Hcalls |].
  split; [congruence |]. split; [congruence |].
  unfold pending. rewrite Hid. reflexivity.
Qed.

Lemma burst_invokes_once_with_last_args_witness :
  leading cfg_32 = false /\ maxWait cfg_32 = None /\ trailing cfg_32 = true
  /\ Num.ge (Fin (64 - 0)) (waitValue cfg_32)
  /\ calls (snd (timerExpired node cfg_32 64
                   (run node cfg_32
                      (map call_event
                         ([(VUndefined, [VStr "a"], 0); (VUndefined, [VStr "b"], 0)]
                          ++ [(VUndefined, [VStr "c"], 0)]))
                      (init host0))))
     = [] ++ [mkInvocation 64 VUndefined (Some [VStr "c"])].
Proof.
  split; [reflexivity |]. split; [reflexivity |]. split; [reflexivity |].
  split; [simpl; lia |].
  refine (proj1 (proj2 (burst_invokes_once_with_last_args node cfg_32 (init host0)
            [(VUndefined, [VStr "a"], 0); (VUndefined, [VStr "b"], 0)]
            VUndefined [VStr "c"] 0 64 eq_refl eq_refl eq_refl _))).
  simpl. lia.
Defined.

(* ------------------------------------------------------------------ *)
(** ** The history of invocations *)

(** X8. Whatever happens to an instance invokes the callable at most once;
    the result changes only when it does, and then becomes what that
    invocation returned. *)
Theorem event_invokes_at_most_once (env : Env) (cfg : Config) (ev : event) (st : State) :
  let st' := step env cfg ev st in
  (calls st' = calls st /\ result st' = result st)
  \/ (exists i, calls st' = calls st ++ [i]
      /\ result st' = call env (func cfg) (inv_this i) (inv_args i)).
Proof.
  destruct ev as [this args now | | now | n now | n now]; simpl;
    try (destruct (has_timeout n (host st)); [| left; split; reflexivity]);
    try (destruct (has_frame n (host st)); [| left; split; reflexivity]);
    destruct st as [la lt r lc ti li h cs];
    unfold_sched; simpl; case_sched;
    first [ left; split; reflexivity
          | right; eexists; split; reflexivity ].
Qed.

Lemma call_returns_result env cfg this args t st :
  fst (debounced env cfg this args t st)
  = result (snd (debounced env cfg this args t st)).
Proof.
  destruct st as [la lt r lc ti li h cs].
  unfold_sched; simpl; case_sched; reflexivity.
Qed.

Lemma flush_returns_result env cfg now st :
  fst (flush env cfg now st) = result (snd (flush env cfg now st)).
Proof.
  destruct st as [la lt r lc ti li h cs].
  unfold_sched; simpl; case_sched; reflexivity.
Qed.

(** X9. On an instance in its host, a call and a [flush()] both return what
    the latest invocation so far returned (the one they make, if they make
    one), and [undefined] if there has been none. *)
Theorem wrapper_returns_latest_result
    (env : Env) (cfg : Config) (h0 : Host) (st : State) :
  reachable env cfg h0 st ->
  (forall this args t,
     fst (debounced env cfg this args t st)
     = last_return env cfg (calls (snd (debounced env cfg this args t st))))
  /\ (forall now,
        fst (flush env cfg now st)
        = last_return env cfg (calls (snd (flush env cfg now st)))).
Proof.
  intros Hr. apply reachable_result_inv in Hr. split.
  - intros this args t. rewrite call_returns_result.
    apply (debounced_result_inv env cfg this args t st Hr).
  - intros now. rewrite flush_returns_result.
    apply (flush_result_inv env cfg now st Hr).
Qed.

Lemma wrapper_returns_latest_result_witness :
  reachable node cfg_lead host0 flushed
  /\ fst (debounced node cfg_lead VUndefined [VStr "b"] 20 flushed) = VStr "a".
Proof.
  assert (Hr : reachable node cfg_lead host0 flushed)
    by (apply reachable_run, reach_init).
  split; [exact Hr |].
  exact (proj1 (wrapper_returns_latest_result node cfg_lead host0 flushed Hr)
           VUndefined [VStr "b"] 20).
Defined.

(** X10. On an instance in its host, arguments are pending only while a
    timer handle is in the slot. *)
Theorem pending_args_need_timer
    (env : Env) (cfg : Config) (h0 : Host) (st : State) (a : list value) :
  reachable env cfg h0 st ->
  lastArgs st = Some a ->
  pending st = true.
Proof.
  intros Hr Ha. apply reachable_idle_inv in Hr. unfold idle_inv in Hr.
  unfold pending. destruct (timerId st); [reflexivity |].
  destruct (Hr eq_refl) as [E _]. congruence.
Qed.

Lemma pending_args_need_timer_witness :
  reachable node cfg_32 host0 (after_call node cfg_32)
  /\ lastArgs (after_call node cfg_32) = Some [VStr "a"]
  /\ pending (after_call node cfg_32) = true.
Proof.
  assert (Hr : reachable node cfg_32 host0 (after_call node cfg_32))
    by (apply reach_step, reach_init).
  split; [exact Hr |]. split; [reflexivity |].
  exact (pending_args_need_timer node cfg_32 host0 (after_call node cfg_32)
           [VStr "a"] Hr eq_refl).
Defined.

(* ------------------------------------------------------------------ *)
(** ** After [cancel()] and [flush()] *)

(** X11. After [cancel()] nothing is pending, the next call is taken as the
    first call ever whatever the clock says, and until that call nothing is
    invoked: not by the cancelled timer, not by any other callback the host
    still runs, not by [flush()]. *)
Theorem cancel_then_quiet (env : Env) (cfg : Config) (st : State) (later : list event) :
  forallb (fun ev => negb (is_call ev)) later = true ->
  let st' := snd (cancel cfg st) in
  pending st' = false
  /\ (forall t, shouldInvoke cfg t st' = true)
  /\ calls (run env cfg later st') = calls st.
Proof.
  intros Hl st'.
  assert (H : timerId st' = None /\ lastCallTime st' = None
              /\ lastArgs st' = None /\ calls st' = calls st).
  { subst st'. unfold_sched. destruct (timerId st); simpl; case_sched;
      repeat split; reflexivity. }
  destruct H as (Hid & Hc & Ha & Hcs).
  split; [unfold pending; rewrite Hid; reflexivity |].
  split; [intros t; unfold shouldInvoke; rewrite Hc; reflexivity |].
  rewrite quiet_run; assumption.
Qed.

Lemma cancel_then_quiet_witness :
  calls (run node cfg_32 [TimeoutFires 1 32; Flush 40]
           (snd (cancel cfg_32 (after_call node cfg_32))))
  = calls (after_call node cfg_32).
Proof.
  exact (proj2 (proj2 (cancel_then_quiet node cfg_32 (after_call node cfg_32)
                         [TimeoutFires 1 32; Flush 40] eq_refl))).
Defined.

(** X12. After [flush()] nothing is pending and, until the next call,
    nothing more is invoked: the timer [flush()] left in the host finds no
    arguments when it fires. *)
Theorem flush_then_quiet
    (env : Env) (cfg : Config) (now : Z) (st : State) (later : list event) :
  forallb (fun ev => negb (is_call ev)) later = true ->
  let st' := snd (flush env cfg now st) in
  (timerId st <> None -> pending st' = false /\ host st' = host st)
  /\ (forall h0, reachable env cfg h0 st ->
        pending st' = false /\ calls (run env cfg later st') = calls st').
Proof.
  intros Hl st'. split.
  - intros Hid. subst st'. unfold pending. unfold_sched.
    destruct st as [la lt r lc [id|] li h cs]; [| simpl in Hid; congruence].
    simpl. destruct (trailing cfg); destruct la; split; reflexivity.
  - intros h0 Hr. apply reachable_idle_inv in Hr. unfold idle_inv in Hr.
    assert (H : timerId st' = None /\ lastArgs st' = None).
    { subst st'. unfold_sched.
      destruct st as [la lt r lc [id|] li h cs]; simpl in *.
      - destruct (trailing cfg); destruct la; split; reflexivity.
      - destruct (Hr eq_refl) as [E _]. subst. split; reflexivity. }
    destruct H as [Hid Ha].
    split; [unfold pending; rewrite Hid; reflexivity |].
    apply quiet_run; assumption.
Qed.

Lemma flush_then_quiet_witness :
  reachable node cfg_32 host0 (after_call node cfg_32)
  /\ calls (run node cfg_32 [TimeoutFires 1 32]
              (snd (flush node cfg_32 10 (after_call node cfg_32))))
     = calls (snd (flush node cfg_32 10 (after_call node cfg_32))).
Proof.
  assert (Hr : reachable node cfg_32 host0 (after_call node cfg_32))
    by (apply reach_step, reach_init).
  split; [exact Hr |].
  exact (proj2 (proj2 (flush_then_quiet node cfg_32 10 (after_call node cfg_32)
                         [TimeoutFires 1 32] eq_refl) host0 Hr)).
Defined.

Lemma trailing_off_step env cfg ev st :
  trailing cfg = false -> is_call ev = false ->
  calls (step env cfg ev st) = calls st /\ result (step env cfg ev st) = result st.
Proof.
  intros Ht Hev.
  destruct ev as [this args now | | now | n now | n now]; simpl in *;
    try discriminate;
    try (destruct (has_timeout n (host st)); [| split; reflexivity]);
    try (destruct (has_frame n (host st)); [| split; reflexivity]);
    destruct st as [la lt r lc ti li h cs];
    unfold_sched; rewrite ?Ht; simpl; case_sched; split; reflexivity.
Qed.

(** X13. With [trailing] off the callable is only ever invoked inside a call:
    timers firing, [flush()] and [cancel()] invoke nothing and leave the
    result as it is. *)
Theorem trailing_off_only_calls_invoke
    (env : Env) (cfg : Config) (later : list event) (st : State) :
  trailing cfg = false ->
  forallb (fun ev => negb (is_call ev)) later = true ->
  calls (run env cfg later st) = calls st
  /\ result (run env cfg later st) = result st.
Proof.
  intros Ht. revert st.
  induction later as [| ev later IH]; intros st Hl; [split; reflexivity |].
  change (run env cfg (ev :: later) st) with (run env cfg later (step env cfg ev st)).
  simpl in Hl. apply andb_true_iff in Hl. destruct Hl as [Hev Hl].
  apply negb_true_iff in Hev.
  destruct (trailing_off_step env cfg ev st Ht Hev) as [Hc Hr].
  destruct (IH (step env cfg ev st) Hl) as [Hc' Hr'].
  split; congruence.
Qed.

Lemma trailing_off_only_calls_invoke_witness :
  trailing cfg_lead_only = false
  /\ calls (run node cfg_lead_only [TimeoutFires 1 32; Flush 40]
              (after_call node cfg_lead_only))
     = calls (after_call node cfg_lead_only).
Proof.
  split; [reflexivity |].
  exact (proj1 (trailing_off_only_calls_invoke node cfg_lead_only
                  [TimeoutFires 1 32; Flush 40] (after_call node cfg_lead_only)
                  eq_refl eq_refl)).
Defined.

(* ------------------------------------------------------------------ *)
(** ** Re-arming the timer, and [maxWait] *)

Lemma built_numbers env f w o cfg :
  debounce env f w o = Return cfg ->
  Num.is_nan (waitValue cfg) = false
  /\ (forall mw, maxWait cfg = Some mw -> Num.is_nan mw = false).
Proof.
  unfold debounce. destruct (negb _); [discriminate |].
  destruct (isObject o); intros H; inversion H; subst; clear H; simpl;
    (split; [apply or0_not_nan |]); intros mw E; [| discriminate].
  destruct (has_prop _); [| discriminate]. inversion E; subst.
  apply (max_bounds _ _ (or0_not_nan _) (or0_not_nan _)).
Qed.

Ltac num_cases :=
  repeat match goal with
         | H : context [Z.leb ?a ?b] |- _ => destruct (Z.leb_spec a b); simpl in H
         | H : context [Z.ltb ?a ?b] |- _ => destruct (Z.ltb_spec a b); simpl in H
         | |- context [Z.leb ?a ?b] => destruct (Z.leb_spec a b); simpl
         | |- context [Z.ltb ?a ?b] => destruct (Z.ltb_spec a b); simpl
         end.

(** X14. On an instance built by [debounce], when the expiry handler does
    not invoke, the delay it re-arms the timer with ([remainingWait]) is
    positive and at most the effective wait. *)
Theorem rearm_delay_bounds
    (env : Env) (f : value) (w : option num) (o : value) (cfg : Config)
    (st : State) (now : Z) :
  debounce env f w o = Return cfg ->
  shouldInvoke cfg now st = false ->
  Num.lt (Fin 0) (remainingWait cfg now st)
  /\ Num.ge (waitValue cfg) (remainingWait cfg now st).
Proof.
  intros Hb Hinv. destruct (built_numbers env f w o cfg Hb) as [Hw Hm].
  unfold shouldInvoke in Hinv. unfold remainingWait.
  destruct (lastCallTime st) as [lct|]; [| discriminate].
  destruct (maxWait cfg) as [mw|].
  - specialize (Hm mw eq_refl).
    destruct (waitValue cfg) as [| |wv|]; destruct mw as [| |m|];
      simpl in *; try discriminate; num_cases; try discriminate;
      simpl; split; try exact I; lia.
  - destruct (waitValue cfg) as [| |wv|];
      simpl in *; try discriminate; num_cases; try discriminate;
      simpl; split; try exact I; lia.
Qed.

Lemma rearm_delay_bounds_witness :
  debounce node (VFun 0) (Some (Fin 32)) VUndefined = Return cfg_32
  /\ shouldInvoke cfg_32 10 (after_call node cfg_32) = false
  /\ Num.lt (Fin 0) (remainingWait cfg_32 10 (after_call node cfg_32)).
Proof.
  split; [reflexivity | split; [reflexivity |]].
  exact (proj1 (rearm_delay_bounds node (VFun 0) (Some (Fin 32)) VUndefined cfg_32
                  (after_call node cfg_32) 10 eq_refl eq_refl)).
Defined.

(** X15. When the expiry handler re-arms the timer for a finite delay [d]
    and that timer fires [d] or more later with no call in between, the
    handler does not re-arm again: [shouldInvoke] holds then. *)
Theorem rearmed_timer_settles
    (env : Env) (cfg : Config) (st : State) (now now' d : Z) :
  shouldInvoke cfg now st = false ->
  remainingWait cfg now st = Fin d ->
  now + d <= now' ->
  shouldInvoke cfg now' (snd (timerExpired env cfg now st)) = true.
Proof.
  intros Hinv Hd Hle.
  assert (E : lastCallTime (snd (timerExpired env cfg now st)) = lastCallTime st
              /\ lastInvokeTime (snd (timerExpired env cfg now st)) = lastInvokeTime st).
  { unfold_sched. rewrite Hinv.
    destruct st as [la lt r lc ti li h cs]; simpl; case_sched; split; reflexivity. }
  destruct E as [Ec Ei].
  unfold shouldInvoke in *. unfold remainingWait in Hd. rewrite Ec, Ei.
  destruct (lastCallTime st) as [lct|]; [| reflexivity].
  destruct (maxWait cfg) as [mw|].
  - destruct (waitValue cfg) as [| |wv|]; destruct mw as [| |m|];
      simpl in *; try discriminate; num_cases; try discriminate;
      try reflexivity; inversion Hd; lia.
  - destruct (waitValue cfg) as [| |wv|];
      simpl in *; try discriminate; num_cases; try discriminate;
      try reflexivity; inversion Hd; lia.
Qed.

Lemma rearmed_timer_settles_witness :
  shouldInvoke cfg_32 10 (after_call node cfg_32) = false
  /\ remainingWait cfg_32 10 (after_call node cfg_32) = Fin 22
  /\ shouldInvoke cfg_32 32 (snd (timerExpired node cfg_32 10 (after_call node cfg_32)))
     = true.
Proof.
  split; [reflexivity | split; [reflexivity |]].
  refine (rearmed_timer_settles node cfg_32 (after_call node cfg_32) 10 32 22
            eq_refl eq_refl _).
  intros H. discriminate H.
Defined.

(** X16. While a timer handle is in the slot, a call that comes [maxWait]
    or more after the last invocation invokes the callable at once, on its
    own receiver and arguments, and returns the fresh result. *)
Theorem maxWait_forces_invocation
    (env : Env) (cfg : Config) (st : State) (this : value) (args : list value) (t : Z)
    (id : TimeoutId) (mw : num) :
  timerId st = Some id ->
  maxWait cfg = Some mw ->
  Num.ge (Fin (t - lastInvokeTime st)) mw ->
  let st' := snd (debounced env cfg this args t st) in
  calls st' = calls st ++ [mkInvocation t this (Some args)]
  /\ fst (debounced env cfg this args t st) = call env (func cfg) this (Some args)
  /\ lastInvokeTime st' = t
  /\ pending st' = true.
Proof.
  intros Hid Hm Hge.
  assert (Hinv : shouldInvoke cfg t st = true).
  { unfold shouldInvoke. destruct (lastCallTime st); [| reflexivity].
    rewrite Hm. apply geb_ge in Hge. rewrite Hge. apply orb_true_r. }
  unfold pending. unfold_sched. rewrite Hinv, Hm.
  destruct st as [la lt r lc ti li h cs]; simpl in *; subst; simpl.
  case_sched; repeat split; reflexivity.
Qed.

Lemma maxWait_forces_invocation_witness :
  timerId (after_call node cfg_32_64) = Some (IdObj 1)
  /\ maxWait cfg_32_64 = Some (Fin 64)
  /\ Num.ge (Fin (64 - lastInvokeTime (after_call node cfg_32_64))) (Fin 64)
  /\ fst (debounced node cfg_32_64 VUndefined [VStr "b"] 64 (after_call node cfg_32_64))
     = VStr "b".
Proof.
  split; [reflexivity | split; [reflexivity |]].
  assert (H : Num.ge (Fin (64 - lastInvokeTime (after_call node cfg_32_64))) (Fin 64)).
  { intros C. discriminate C. }
  split; [exact H |].
  exact (proj1 (proj2 (maxWait_forces_invocation node cfg_32_64
                         (after_call node cfg_32_64) VUndefined [VStr "b"] 64
                         (IdObj 1) (Fin 64) eq_refl eq_refl H))).
Defined.

(** X17. On the tight-loop path outside frame callbacks the timer that was
    in the slot is not cleared: it stays outstanding in the host beside the
    new one, whose handle replaces it in the slot. *)
Theorem tight_loop_keeps_previous_timer
    (env : Env) (cfg : Config) (st : State) (this : value) (args : list value) (t : Z)
    (id : TimeoutId) (mw : num) :
  shouldInvoke cfg t st = true ->
  timerId st = Some id ->
  maxWait cfg = Some mw ->
  frame_path cfg id = false ->
  has_timeout (id_of id) (host st) = true ->
  let st' := snd (debounced env cfg this args t st) in
  has_timeout (id_of id) (host st') = true
  /\ has_timeout (nextTimeout (host st)) (host st') = true
  /\ timerId st' = Some (fresh_timeout env (host st))
  /\ List.length (timeouts (host st')) = S (List.length (timeouts (host st))).
Proof.
  intros Hinv Hid Hm Hf Hlive. unfold frame_path in Hf.
  unfold_sched. rewrite Hinv, Hm.
  destruct st as [la lt r lc ti li h cs]; simpl in *; subst; simpl.
  rewrite Hf. simpl. unfold has_timeout in *. simpl.
  rewrite !existsb_app, Hlive, length_app. simpl.
  rewrite Nat.eqb_refl, orb_true_r.
  repeat split. lia.
Qed.

Lemma tight_loop_keeps_previous_timer_witness :
  shouldInvoke cfg_32_64 64 (after_call node cfg_32_64) = true
  /\ has_timeout 1 (host (after_call node cfg_32_64)) = true
  /\ has_timeout 1
       (host (snd (debounced node cfg_32_64 VUndefined [VStr "b"] 64
                     (after_call node cfg_32_64)))) = true.
Proof.
  split; [reflexivity | split; [reflexivity |]].
  exact (proj1 (tight_loop_keeps_previous_timer node cfg_32_64
                  (after_call node cfg_32_64) VUndefined [VStr "b"] 64
                  (IdObj 1) (Fin 64) eq_refl eq_refl eq_refl eq_refl eq_refl)).
Defined.

(* ------------------------------------------------------------------ *)
(** ** Calls inside a burst *)

Lemma busy_call_effect env cfg st this args t id :
  timerId st = Some id ->
  maxWait cfg = None \/ shouldInvoke cfg t st = false ->
  host (snd (debounced env cfg this args t st)) = host st
  /\ timerId (snd (debounced env cfg this args t st)) = Some id
  /\ calls (snd (debounced env cfg this args t st)) = calls st
  /\ result (snd (debounced env cfg this args t st)) = result st
  /\ fst (debounced env cfg this args t st) = result st
  /\ lastArgs (snd (debounced env cfg this args t st)) = Some args
  /\ lastThis (snd (debounced env cfg this args t st)) = this
  /\ lastCallTime (snd (debounced env cfg this args t st)) = Some t
  /\ lastInvokeTime (snd (debounced env cfg this args t st)) = lastInvokeTime st.
Proof.
  intros Hid [Hm | Hinv]; unfold_sched.
  - rewrite Hm. destruct st as [la lt r lc ti li h cs]; simpl in *; subst.
    destruct (shouldInvoke cfg t _); simpl; repeat split; reflexivity.
  - rewrite Hinv. destruct st as [la lt r lc ti li h cs]; simpl in *; subst.
    repeat split; reflexivity.
Qed.

(** X18. A call that finds a timer handle in the slot, on an instance
    without [maxWait] or at a time when [shouldInvoke] does not hold,
    touches neither the host nor the slot: the timer is not restarted.  It
    invokes nothing, returns the previous result, and replaces the pending
    payload and [lastCallTime] by its own. *)
Theorem busy_call_leaves_timer
    (env : Env) (cfg : Config) (st : State) (this : value) (args : list value) (t : Z)
    (id : TimeoutId) :
  timerId st = Some id ->
  maxWait cfg = None \/ shouldInvoke cfg t st = false ->
  let st' := snd (debounced env cfg this args t st) in
  host st' = host st
  /\ timerId st' = Some id
  /\ calls st' = calls st
  /\ fst (debounced env cfg this args t st) = result st
  /\ lastArgs st' = Some args
  /\ lastThis st' = this
  /\ lastCallTime st' = Some t.
Proof.
  intros Hid H st'. subst st'.
  destruct (busy_call_effect env cfg st this args t id Hid H)
    as (H1 & H2 & H3 & _ & H5 & H6 & H7 & H8 & _).
  repeat split; assumption.
Qed.

Lemma busy_call_leaves_timer_witness :
  timerId (after_call node cfg_32) = Some (IdObj 1)
  /\ host (snd (debounced node cfg_32 VUndefined [VStr "b"] 5 (after_call node cfg_32)))
     = host (after_call node cfg_32).
Proof.
  split; [reflexivity |].
  exact (proj1 (busy_call_leaves_timer node cfg_32 (after_call node cfg_32)
                  VUndefined [VStr "b"] 5 (IdObj 1) eq_refl (or_introl eq_refl))).
Defined.

Lemma busy_calls_effect env cfg cs : forall st id,
  maxWait cfg = None ->
  timerId st = Some id ->
  calls (run env cfg (map call_event cs) st) = calls st
  /\ timerId (run env cfg (map call_event cs) st) = Some id
  /\ result (run env cfg (map call_event cs) st) = result st.
Proof.
  induction cs as [| [[this args] t] cs IH]; intros st id Hm Hid; [repeat split; auto |].
  change (run env cfg (map call_event ((this, args, t) :: cs)) st)
    with (run env cfg (map call_event cs) (step env cfg (Call this args t) st)).
  destruct (busy_call_effect env cfg st this args t id Hid (or_introl Hm))
    as (_ & Hid' & Hc & Hr & _).
  destruct (IH (step env cfg (Call this args t) st) id Hm Hid') as (Hc' & Hid'' & Hr').
  simpl in *. repeat split; congruence.
Qed.

(** X19. With [leading] and [trailing] both on and no [maxWait], a burst of
    two or more calls invokes the callable exactly twice: at once on the
    first call's payload, and, when the timer fires at least [wait] after
    the last call, on the last call's payload.  The calls after the first
    return the first invocation's result. *)
Theorem leading_and_trailing_burst
    (env : Env) (cfg : Config) (st : State)
    (this1 : value) (args1 : list value) (t1 : Z)
    (between : list (value * list value * Z))
    (this2 : value) (args2 : list value) (t2 now : Z) :
  leading cfg = true ->
  trailing cfg = true ->
  maxWait cfg = None ->
  timerId st = None ->
  shouldInvoke cfg t1 st = true ->
  Num.ge (Fin (now - t2)) (waitValue cfg) ->
  let st1 := step env cfg (Call this1 args1 t1) st in
  let st2 := run env cfg (map call_event between) st1 in
  let st3 := step env cfg (Call this2 args2 t2) st2 in
  let st4 := snd (timerExpired env cfg now st3) in
  fst (debounced env cfg this2 args2 t2 st2) = call env (func cfg) this1 (Some args1)
  /\ calls st3 = calls st ++ [mkInvocation t1 this1 (Some args1)]
  /\ calls st4 = calls st ++ [mkInvocation t1 this1 (Some args1);
                              mkInvocation now this2 (Some args2)]
  /\ pending st4 = false.
Proof.
  intros Hl Ht Hm Hid Hinv Hge st1 st2 st3 st4.
  assert (H1 : calls st1 = calls st ++ [mkInvocation t1 this1 (Some args1)]
               /\ result st1 = call env (func cfg) this1 (Some args1)
               /\ timerId st1 = Some (fresh_timeout env (host st))).
  { subst st1. simpl. unfold_sched. rewrite Hinv, Hl. unfold fresh_timeout.
    destruct st as [la lt r lc ti li h cs]; simpl in *; subst.
    repeat split; reflexivity. }
  destruct H1 as (Hc1 & Hr1 & Hid1).
  destruct (busy_calls_effect env cfg between st1 _ Hm Hid1) as (Hc2 & Hid2 & Hr2).
  fold st2 in Hc2, Hid2, Hr2.
  destruct (busy_call_effect env cfg st2 this2 args2 t2 _ Hid2 (or_introl Hm))
    as (_ & _ & Hc3 & _ & Hf3 & Ha3 & Hth3 & Hct3 & _).
  change (snd (debounced env cfg this2 args2 t2 st2)) with st3 in Hc3, Ha3, Hth3, Hct3.
  assert (Hinv3 : shouldInvoke cfg now st3 = true).
  { unfold shouldInvoke. rewrite Hct3. apply geb_ge in Hge. rewrite Hge. reflexivity. }
  assert (Ex : timerExpired env cfg now st3 = trailingEdge env cfg now st3).
  { unfold timerExpired, bind, gets. rewrite Hinv3. reflexivity. }
  destruct (trailingEdge_post env cfg now st3) as (Hid4 & _ & _ & _ & _ & Hyes & _).
  destruct (Hyes Ht args2 Ha3) as (Hc4 & _).
  split; [congruence |]. split; [congruence |]. split.
  - subst st4. rewrite Ex, Hc4, Hc3, Hc2, Hc1, Hth3, <- app_assoc. reflexivity.
  - subst st4. rewrite Ex. unfold pending. rewrite Hid4. reflexivity.
Qed.

Lemma leading_and_trailing_burst_witness :
  leading cfg_lead = true /\ trailing cfg_lead = true /\ maxWait cfg_lead = None
  /\ timerId (init host0) = None
  /\ shouldInvoke cfg_lead 0 (init host0) = true
  /\ fst (debounced node cfg_lead VUndefined [VStr "b"] 5
            (run node cfg_lead (map call_event [])
               (step node cfg_lead (Call VUndefined [VStr "a"] 0) (init host0))))
     = VStr "a".
Proof.
  repeat (split; [reflexivity |]).
  refine (proj1 (leading_and_trailing_burst node cfg_lead (init host0)
                   VUndefined [VStr "a"] 0 [] VUndefined [VStr "b"] 5 200
                   eq_refl eq_refl eq_refl eq_refl eq_refl _)).
  simpl. lia.
Defined.
